(** * vicostream: RTP H264 depacketizer, peer session gate, signaling dispatch

    A shallow embedding of the Go sources of vicostream and the proofs of
    the properties its specification states about them.

    Conventions:
    - a Go [[]byte] is a [list byte]; a nil slice and an empty slice are both
      the empty list (the code only ever tests [len]);
    - a Go [int] is a [Z]; every [int] computed here stays below
      [len(payload) + 65537], far from the 64-bit bound, so no wrap-around
      is written for it;
    - a [uint16] is a [Z] whose increment wraps modulo 65536;
    - a run-time fault of Go (index or slice out of range, close of a closed
      channel) is the explicit outcome [Panic]; [log.Fatalf] is the outcome
      [Exit 1]; other logging is not modelled;
    - what lies outside the repository (the pion engine, the websocket, the
      JSON and base64 codecs) is an interface whose replies the code
      consumes: the classes [PionEngine] and [Transport]. *)

From Stdlib Require Import String.
From Stdlib Require Import ZArith List Lia Bool Permutation.
From Stdlib Require Import Strings.Byte.
Import ListNotations.

Set Implicit Arguments.
Local Open Scope Z_scope.

(** ** Outcomes of Go code *)

Inductive fault : Type :=
| IndexOutOfRange
| SliceBoundsOutOfRange
| CloseOfClosedChannel.

Inductive result (A : Type) : Type :=
| Ok (a : A)
| Panic (f : fault)
| Exit (status : Z)
| OutOfFuel.

Arguments Ok {A} a.
Arguments Panic {A} f.
Arguments Exit {A} status.
Arguments OutOfFuel {A}.

(** A Go pair [(T, error)] of which the code reads the value only when the
    error is nil. *)
Inductive or_error (A : Type) : Type :=
| Value (a : A)
| Error (msg : string).

Arguments Value {A} a.
Arguments Error {A} msg.

Definition bind {A B : Type} (r : result A) (k : A -> result B) : result B :=
  match r with
  | Ok a => k a
  | Panic f => Panic f
  | Exit status => Exit status
  | OutOfFuel => OutOfFuel
  end.

Declare Scope go_scope.
Delimit Scope go_scope with go.
Notation "x <- c ;; k" := (bind c (fun x => k))
  (at level 61, c at next level, right associativity) : go_scope.
Local Open Scope go_scope.

(** ** Bytes and slices *)

Definition u8 (b : byte) : Z := Z.of_N (Byte.to_N b).

Definition byte_of_Z (z : Z) : byte :=
  match Byte.of_N (Z.to_N (z mod 256)) with
  | Some b => b
  | None => x00
  end.

Definition len {A : Type} (s : list A) : Z := Z.of_nat (length s).

(** [s[i]] *)
Definition index (s : list byte) (i : Z) : result byte :=
  if (0 <=? i) && (i <? len s) then
    match nth_error s (Z.to_nat i) with
    | Some b => Ok b
    | None => Panic IndexOutOfRange
    end
  else Panic IndexOutOfRange.

(** [s[lo:hi]] *)
Definition slice (s : list byte) (lo hi : Z) : result (list byte) :=
  if (0 <=? lo) && (lo <=? hi) && (hi <=? len s) then
    Ok (firstn (Z.to_nat (hi - lo)) (skipn (Z.to_nat lo) s))
  else Panic SliceBoundsOutOfRange.

(** [s[lo:]] *)
Definition slice_from (s : list byte) (lo : Z) : result (list byte) :=
  slice s lo (len s).

(** [uint16] addition of one. *)
Definition uint16_succ (n : Z) : Z := (n + 1) mod 65536.

(** ** The depacketizer (package webrtc)

    [H264Depacketizer] as the specification describes it and as the tests
    [TestDepacketize_FUADropsOnSequenceGap] and
    [TestDepacketize_STAPAIgnoresZeroSizeNALU] exercise it: [Depacketize]
    takes the RTP sequence number. *)

Module Depack.

Record H264Depacketizer : Type := mkDepacketizer {
  fuaBuf : list byte;
  fuaStarted : bool;
  expectedSeq : Z
}.

(** [NewH264Depacketizer]: the zero value. *)
Definition NewH264Depacketizer : H264Depacketizer :=
  mkDepacketizer [] false 0.

Definition nalus := list (list byte).

(** The loop of [depacketizeSTAPA]; one unit of fuel per iteration. *)
Fixpoint stapaLoop (fuel : nat) (payload : list byte) (offset : Z)
    (acc : nalus) : result nalus :=
  if offset + 2 <=? len payload then
    match fuel with
    | O => OutOfFuel
    | S fuel' =>
        hi <- index payload offset ;;
        lo <- index payload (offset + 1) ;;
        let size := Z.lor (Z.shiftl (u8 hi) 8) (u8 lo) in
        let offset := offset + 2 in
        if size =? 0 then Ok acc
        else if offset + size >? len payload then Ok acc
        else
          nalu <- slice payload offset (offset + size) ;;
          stapaLoop fuel' payload (offset + size) (acc ++ [nalu])
    end
  else Ok acc.

Definition depacketizeSTAPA (d : H264Depacketizer) (payload : list byte)
    : result (H264Depacketizer * nalus) :=
  out <- stapaLoop (length payload) payload 1 [] ;;
  Ok (d, out).

Definition depacketizeFUA (d : H264Depacketizer) (sequenceNumber : Z)
    (payload : list byte) : result (H264Depacketizer * nalus) :=
  if len payload <? 2 then Ok (d, [])
  else
    b0 <- index payload 0 ;;
    let fnri := Z.land (u8 b0) 0xe0 in
    fuHeader <- index payload 1 ;;
    let start := negb (Z.land (u8 fuHeader) 0x80 =? 0) in
    let end_ := negb (Z.land (u8 fuHeader) 0x40 =? 0) in
    let naluType := Z.land (u8 fuHeader) 0x1f in
    if start then
      rest <- slice_from payload 2 ;;
      let buf := [byte_of_Z (Z.lor fnri naluType)] ++ rest in
      if end_ then
        Ok (mkDepacketizer [] false (uint16_succ sequenceNumber), [buf])
      else
        Ok (mkDepacketizer buf true (uint16_succ sequenceNumber), [])
    else if negb (fuaStarted d) then Ok (d, [])
    else if negb (sequenceNumber =? expectedSeq d) then
      Ok (mkDepacketizer [] false (expectedSeq d), [])
    else
      rest <- slice_from payload 2 ;;
      let buf := fuaBuf d ++ rest in
      if end_ then
        Ok (mkDepacketizer [] false (uint16_succ sequenceNumber), [buf])
      else
        Ok (mkDepacketizer buf true (uint16_succ sequenceNumber), []).

Definition Depacketize (d : H264Depacketizer) (sequenceNumber : Z)
    (payload : list byte) : result (H264Depacketizer * nalus) :=
  if len payload <? 1 then Ok (d, [])
  else
    b0 <- index payload 0 ;;
    let naluType := Z.land (u8 b0) 0x1f in
    if (1 <=? naluType) && (naluType <=? 23) then Ok (d, [payload])
    else if naluType =? 24 then depacketizeSTAPA d payload
    else if naluType =? 28 then depacketizeFUA d sequenceNumber payload
    else Ok (d, []).

(** Successive calls on one instance, as the track reader makes them: the
    outputs of the calls, in order, and the instance after the last. *)
Fixpoint feed (d : H264Depacketizer) (pkts : list (Z * list byte))
    : result (H264Depacketizer * list nalus) :=
  match pkts with
  | [] => Ok (d, [])
  | (sequenceNumber, payload) :: rest =>
      r <- Depacketize d sequenceNumber payload ;;
      r' <- feed (fst r) rest ;;
      Ok (fst r', snd r :: snd r')
  end.

End Depack.

Import Depack.

(** ** The depacketizer of internal/webrtc/depacketize.go

    The copy that [readVideoTrack] of peer.go calls: it takes no sequence
    number, keeps only the buffer, and its STAP-A loop has no test for a
    zero size. *)

Module Unsequenced.

Record H264Depacketizer : Type := mkDepacketizer {
  fuaBuf : list byte
}.

Definition NewH264Depacketizer : H264Depacketizer := mkDepacketizer [].

Fixpoint stapaLoop (fuel : nat) (payload : list byte) (offset : Z)
    (acc : Depack.nalus) : result Depack.nalus :=
  if offset + 2 <=? len payload then
    match fuel with
    | O => OutOfFuel
    | S fuel' =>
        hi <- index payload offset ;;
        lo <- index payload (offset + 1) ;;
        let size := Z.lor (Z.shiftl (u8 hi) 8) (u8 lo) in
        let offset := offset + 2 in
        if offset + size >? len payload then Ok acc
        else
          nalu <- slice payload offset (offset + size) ;;
          stapaLoop fuel' payload (offset + size) (acc ++ [nalu])
    end
  else Ok acc.

Definition depacketizeSTAPA (d : H264Depacketizer) (payload : list byte)
    : result (H264Depacketizer * Depack.nalus) :=
  out <- stapaLoop (length payload) payload 1 [] ;;
  Ok (d, out).

Definition depacketizeFUA (d : H264Depacketizer) (payload : list byte)
    : result (H264Depacketizer * Depack.nalus) :=
  if len payload <? 2 then Ok (d, [])
  else
    b0 <- index payload 0 ;;
    let fnri := Z.land (u8 b0) 0xe0 in
    fuHeader <- index payload 1 ;;
    let start := negb (Z.land (u8 fuHeader) 0x80 =? 0) in
    let end_ := negb (Z.land (u8 fuHeader) 0x40 =? 0) in
    let naluType := Z.land (u8 fuHeader) 0x1f in
    rest <- slice_from payload 2 ;;
    let buf :=
      if start then [byte_of_Z (Z.lor fnri naluType)] ++ rest
      else fuaBuf d ++ rest in
    if end_ then Ok (mkDepacketizer [], [buf])
    else Ok (mkDepacketizer buf, []).

Definition Depacketize (d : H264Depacketizer) (payload : list byte)
    : result (H264Depacketizer * Depack.nalus) :=
  if len payload <? 1 then Ok (d, [])
  else
    b0 <- index payload 0 ;;
    let naluType := Z.land (u8 b0) 0x1f in
    if (1 <=? naluType) && (naluType <=? 23) then Ok (d, [payload])
    else if naluType =? 24 then depacketizeSTAPA d payload
    else if naluType =? 28 then depacketizeFUA d payload
    else Ok (d, []).

End Unsequenced.

(** ** Vocabulary of the properties, read off the expressions of the source *)

(** [payload[0] & 0x1f] *)
Definition nalType (b : byte) : Z := Z.land (u8 b) 0x1f.

(** [fuHeader&0x80 != 0] *)
Definition startFlag (h : byte) : bool := negb (Z.land (u8 h) 0x80 =? 0).

(** [fuHeader&0x40 != 0] *)
Definition endFlag (h : byte) : bool := negb (Z.land (u8 h) 0x40 =? 0).

(** [fnri | naluType]: the top three bits of the FU indicator with the low
    five bits of the FU header. *)
Definition nalHeader (indicator fuHeader : byte) : byte :=
  byte_of_Z (Z.lor (Z.land (u8 indicator) 0xe0) (Z.land (u8 fuHeader) 0x1f)).

(** The size two bytes declare, most significant byte first. *)
Definition be16 (b1 b2 : byte) : Z := 256 * u8 b1 + u8 b2.

(** What the specification says of a STAP-A body (the payload after its
    one-byte header): read a two-byte size, then that many bytes as one
    unit; stop at a zero size, at a size that exceeds what remains, or when
    fewer than two bytes remain. *)
Inductive stapa_units : list byte -> nalus -> Prop :=
| stapa_short rest :
    len rest < 2 -> stapa_units rest []
| stapa_zero b1 b2 rest :
    be16 b1 b2 = 0 -> stapa_units (b1 :: b2 :: rest) []
| stapa_overrun b1 b2 rest :
    len rest < be16 b1 b2 -> stapa_units (b1 :: b2 :: rest) []
| stapa_unit b1 b2 rest us :
    0 < be16 b1 b2 <= len rest ->
    stapa_units (skipn (Z.to_nat (be16 b1 b2)) rest) us ->
    stapa_units (b1 :: b2 :: rest)
      (firstn (Z.to_nat (be16 b1 b2)) rest :: us).

(** A FU-A fragment: indicator byte, FU header byte, fragment data. *)
Record fragment : Type := mkFragment {
  indicator : byte;
  header : byte;
  data : list byte
}.

Definition bytes (f : fragment) : list byte :=
  indicator f :: header f :: data f.

(** The payload is a FU-A packet: its type is 28 (it may be too short to
    carry a FU header). *)
Definition isFUA (payload : list byte) : bool :=
  match payload with
  | b0 :: _ => nalType b0 =? 28
  | [] => false
  end.

(** The payload is a FU-A fragment with the start flag set. *)
Definition isFUAStart (payload : list byte) : bool :=
  match payload with
  | b0 :: h :: _ => (nalType b0 =? 28) && startFlag h
  | _ => false
  end.

(** Consecutive [uint16] sequence numbers from [s] on. *)
Fixpoint numbered (s : Z) (fs : list fragment) : list (Z * list byte) :=
  match fs with
  | [] => []
  | f :: rest => (s, bytes f) :: numbered (uint16_succ s) rest
  end.

(** A middle fragment: FU-A, neither start nor end flag. *)
Definition isMiddle (f : fragment) : bool :=
  (nalType (indicator f) =? 28) && negb (startFlag (header f))
  && negb (endFlag (header f)).

(** A final fragment: FU-A, end flag without start flag. *)
Definition isFinal (f : fragment) : bool :=
  (nalType (indicator f) =? 28) && negb (startFlag (header f))
  && endFlag (header f).

(** A first fragment of several: FU-A, start flag without end flag. *)
Definition isFirst (f : fragment) : bool :=
  (nalType (indicator f) =? 28) && startFlag (header f)
  && negb (endFlag (header f)).

(** The fragments after the first of a chain: no start flag, and the end
    flag on the last one and on no other. *)
Fixpoint continues (fs : list fragment) : bool :=
  match fs with
  | [] => false
  | [f] => isFinal f
  | f :: rest => isMiddle f && continues rest
  end.

(** A fragment that is a whole unit: FU-A, start and end flag. *)
Definition isWhole (f : fragment) : bool :=
  (nalType (indicator f) =? 28) && startFlag (header f)
  && endFlag (header f).

(** A FU-A fragment chain: a start fragment, then non-start fragments up to
    the first one with the end flag; or one fragment with both flags. *)
Definition isChain (fs : list fragment) : bool :=
  match fs with
  | [] => false
  | [f] => isWhole f
  | f :: rest => isFirst f && continues rest
  end.

(** The unit a chain stands for: the rebuilt header byte, then the data of
    all fragments. *)
Definition reassembled (fs : list fragment) : list byte :=
  match fs with
  | [] => []
  | f :: _ => nalHeader (indicator f) (header f) :: concat (map data fs)
  end.

(** Every packet that is a FU-A packet gave no unit. *)
Definition fua_silent (pkts : list (Z * list byte)) (outs : list nalus)
    : Prop :=
  Forall2 (fun p out => isFUA (snd p) = true -> out = []) pkts outs.

(** ** Package domain *)

Module Domain.

Record SDPPayload : Type := mkSDPPayload {
  Type_ : string;
  SDP : string
}.

Record ICECandidatePayload : Type := mkICECandidatePayload {
  SDPMid : string;
  SDPMLineIndex : Z;
  Candidate : string
}.

(** The fields of [Ticket] that the signaling client reads. *)
Record Ticket : Type := mkTicket {
  TraceID : string;
  GroupID : string;
  ID : string;
  SignalServer : string;
  SignalPingInterval : Z;
  WebsocketPath : string;
  AccessToken : string
}.

End Domain.

(** ** Package webrtc: Peer *)

Module Webrtc.
Import Domain.

(** [pion.ICECandidateInit] as [AddRemoteICECandidate] fills it. *)
Record ICECandidateInit : Type := mkICECandidateInit {
  initCandidate : string;
  initSDPMid : string;
  initSDPMLineIndex : Z
}.

(** The peer connection of the engine: the four methods the session calls,
    each returning the connection after the call and its reply. *)
Class PionEngine : Type := {
  PeerConnection : Type;
  pcCreateOffer : PeerConnection -> PeerConnection * or_error string;
  pcSetLocalDescription :
    PeerConnection -> string -> PeerConnection * option string;
  pcSetRemoteDescription :
    PeerConnection -> string -> PeerConnection * option string;
  pcAddICECandidate :
    PeerConnection -> ICECandidateInit -> PeerConnection * option string
}.

(** The [init] that [AddRemoteICECandidate] builds; the line index is
    converted to [uint16]. *)
Definition candidateInit (candidate : ICECandidatePayload)
    : ICECandidateInit :=
  let sdpMLineIndex := SDPMLineIndex candidate mod 65536 in
  mkICECandidateInit (Candidate candidate) (SDPMid candidate) sdpMLineIndex.

(** A [chan struct{}] on which nothing is ever sent: a receive blocks while
    it is open and returns once it is closed. *)
Inductive chan : Type :=
| ChanOpen
| ChanClosed.

(** The calls that reached the engine, for the record. *)
Inductive engine_call : Type :=
| ECreateOffer
| ESetLocalDescription (sdp : string)
| ESetRemoteDescription (sdp : string) (err : option string)
| EAddICECandidate (init : ICECandidateInit) (err : option string).

Section Peer.
Context {engine : PionEngine}.

(** [Peer]: [pc] and [remoteDescSet] are the fields of the source (the data
    channel and the serial number play no part here); [calls] is the record
    of the calls made on [pc], oldest first. *)
Record Peer : Type := mkPeer {
  pc : PeerConnection;
  remoteDescSet : chan;
  calls : list engine_call
}.

(** The part of [NewPeer] that concerns the fields above:
    [remoteDescSet: make(chan struct{})]. *)
Definition NewPeer (pc0 : PeerConnection) : Peer :=
  mkPeer pc0 ChanOpen [].

Definition CreateOffer (p : Peer) : Peer * or_error string :=
  let (pc1, offer) := pcCreateOffer (pc p) in
  match offer with
  | Error err =>
      (mkPeer pc1 (remoteDescSet p) (calls p ++ [ECreateOffer]),
       Error ("create offer: " ++ err)%string)
  | Value sdp =>
      let (pc2, err) := pcSetLocalDescription pc1 sdp in
      let p' := mkPeer pc2 (remoteDescSet p)
                  (calls p ++ [ECreateOffer; ESetLocalDescription sdp]) in
      match err with
      | Some err => (p', Error ("set local description: " ++ err)%string)
      | None => (p', Value sdp)
      end
  end.

Definition SetRemoteDescription (p : Peer) (sdp : SDPPayload)
    : result (Peer * option string) :=
  let (pc1, err) := pcSetRemoteDescription (pc p) (SDP sdp) in
  let log := calls p ++ [ESetRemoteDescription (SDP sdp) err] in
  match err with
  | Some err =>
      Ok (mkPeer pc1 (remoteDescSet p) log,
          Some ("set remote description: " ++ err)%string)
  | None =>
      match remoteDescSet p with
      | ChanClosed => Panic CloseOfClosedChannel
      | ChanOpen => Ok (mkPeer pc1 ChanClosed log, None)
      end
  end.

(** A call that may block: [Blocked] while it cannot proceed. *)
Inductive blocking (A : Type) : Type :=
| Blocked
| Returned (a : A).

Definition AddRemoteICECandidate (p : Peer) (candidate : ICECandidatePayload)
    : blocking (Peer * option string) :=
  match remoteDescSet p with
  | ChanOpen => Blocked _
  | ChanClosed =>
      let init := candidateInit candidate in
      let (pc1, err) := pcAddICECandidate (pc p) init in
      let p' := mkPeer pc1 (remoteDescSet p)
                  (calls p ++ [EAddICECandidate init err]) in
      match err with
      | Some err => Returned (p', Some ("add ice candidate: " ++ err)%string)
      | None => Returned (p', None)
      end
  end.

End Peer.

(** In the record of calls, every candidate comes after a remote
    description that the engine accepted; [seen] says whether one was
    accepted before the calls in the list. *)
Fixpoint candidates_follow_description (seen : bool)
    (cs : list engine_call) : bool :=
  match cs with
  | [] => true
  | ESetRemoteDescription _ None :: rest =>
      candidates_follow_description true rest
  | EAddICECandidate _ _ :: rest =>
      seen && candidates_follow_description seen rest
  | _ :: rest => candidates_follow_description seen rest
  end.

(** The engine accepted a remote description in one of the calls. *)
Definition description_accepted (cs : list engine_call) : bool :=
  existsb (fun c => match c with
                    | ESetRemoteDescription _ None => true
                    | _ => false
                    end) cs.

(** The candidates handed to the engine, oldest first. *)
Fixpoint candidates_applied (cs : list engine_call)
    : list ICECandidateInit :=
  match cs with
  | [] => []
  | EAddICECandidate init _ :: rest => init :: candidates_applied rest
  | _ :: rest => candidates_applied rest
  end.

(** The channel is closed exactly when the engine has accepted a remote
    description, and the record of calls is in order. *)
Definition gate_invariant {engine : PionEngine} (p : Peer) : Prop :=
  remoteDescSet p
  = (if description_accepted (calls p) then ChanClosed else ChanOpen)
  /\ candidates_follow_description false (calls p) = true.

End Webrtc.

(** ** Package signal: Client *)

Module Signal.
Import Domain Webrtc.
Local Open Scope string_scope.

(** The envelope [message]; field [mX] is the Go field [X]. *)
Record message : Type := mkMessage {
  mMethod : string;
  mCode : option Z;
  mMessage : string;
  mClientType : string;
  mClientID : string;
  mStatus : string;
  mAccessToken : string;
  mID : string;
  mRole : string;
  mName : string;
  mGroup : string;
  mTraceID : string;
  mRecipientClientID : string;
  mSenderClientID : string;
  mSessionID : string;
  mMessageType : string;
  mMessagePayload : string;
  mMode : string;
  mViewerType : string;
  mResolution : string;
  mVersion : string;
  mTimestamp : Z;
  mReason : Z
}.

(** The websocket and the codecs of the Go library, as the client uses
    them. *)
Class Transport : Type := {
  Conn : Type;
  connWriteMessage : Conn -> string -> Conn * option string;
  json_Marshal_message : message -> or_error string;
  json_Marshal_SDPPayload : SDPPayload -> or_error string;
  json_Marshal_ICECandidatePayload : ICECandidatePayload -> or_error string;
  json_Unmarshal_message : string -> or_error message;
  json_Unmarshal_SDPPayload : string -> or_error SDPPayload;
  json_Unmarshal_ICECandidatePayload : string -> or_error ICECandidatePayload;
  base64_EncodeToString : string -> string;
  base64_DecodeString : string -> or_error string
}.

(** [data, _ := json.Marshal(x)]: the error is dropped, the bytes are nil
    when there is one. *)
Definition ignoring_error (r : or_error string) : string :=
  match r with
  | Value data => data
  | Error _ => EmptyString
  end.

(** The methods of [domain.Handler], as calls. *)
Inductive callback : Type :=
| OnAuthSuccess
| OnPeerIn
| OnPeerOut
| OnSDPAnswer (sdp : SDPPayload)
| OnRemoteICECandidate (candidate : ICECandidatePayload).

Section Client.
Context {transport : Transport}.

(** [Client]: [sent] and [written] are the record of the messages given to
    [sendJSON] and of the frames given to [conn.WriteMessage], oldest
    first. The handler is the argument of [readLoop]. *)
Record Client : Type := mkClient {
  conn : Conn;
  ticket : Ticket;
  serial : string;
  sessionID : string;
  closed : chan;
  sent : list message;
  written : list string
}.

Definition Close (c : Client) : Client :=
  match closed c with
  | ChanClosed => c
  | ChanOpen =>
      mkClient (conn c) (ticket c) (serial c) (sessionID c) ChanClosed
        (sent c) (written c)
  end.

Definition sendJSON (c : Client) (msg : message) : Client :=
  match json_Marshal_message msg with
  | Error _ =>
      mkClient (conn c) (ticket c) (serial c) (sessionID c) (closed c)
        (sent c ++ [msg]) (written c)
  | Value data =>
      let (conn1, _) := connWriteMessage (conn c) data in
      mkClient conn1 (ticket c) (serial c) (sessionID c) (closed c)
        (sent c ++ [msg]) (written c ++ [data])
  end.

Definition authMessage (c : Client) : message :=
  {| mMethod := "AUTH";
     mCode := None;
     mMessage := EmptyString;
     mClientType := "app";
     mClientID := EmptyString;
     mStatus := "normal";
     mAccessToken := AccessToken (ticket c);
     mID := ID (ticket c);
     mRole := EmptyString;
     mName := EmptyString;
     mGroup := EmptyString;
     mTraceID := EmptyString;
     mRecipientClientID := EmptyString;
     mSenderClientID := EmptyString;
     mSessionID := EmptyString;
     mMessageType := EmptyString;
     mMessagePayload := EmptyString;
     mMode := EmptyString;
     mViewerType := EmptyString;
     mResolution := EmptyString;
     mVersion := EmptyString;
     mTimestamp := 0;
     mReason := 0 |}.

Definition sendAuth (c : Client) : Client := sendJSON c (authMessage c).

Definition joinLiveMessage (c : Client) : message :=
  {| mMethod := "JOIN_LIVE";
     mCode := None;
     mMessage := EmptyString;
     mClientType := EmptyString;
     mClientID := EmptyString;
     mStatus := EmptyString;
     mAccessToken := EmptyString;
     mID := EmptyString;
     mRole := "viewer";
     mName := ID (ticket c);
     mGroup := GroupID (ticket c);
     mTraceID := TraceID (ticket c);
     mRecipientClientID := serial c;
     mSenderClientID := EmptyString;
     mSessionID := EmptyString;
     mMessageType := EmptyString;
     mMessagePayload := EmptyString;
     mMode := EmptyString;
     mViewerType := EmptyString;
     mResolution := EmptyString;
     mVersion := EmptyString;
     mTimestamp := 0;
     mReason := 0 |}.

Definition SendJoinLive (c : Client) : Client :=
  sendJSON c (joinLiveMessage c).

Definition sdpOfferMessage (c : Client) (sdp : string) : message :=
  let payload := mkSDPPayload "offer" sdp in
  let payloadJSON := ignoring_error (json_Marshal_SDPPayload payload) in
  let encoded := base64_EncodeToString payloadJSON in
  {| mMethod := "TRANSMIT";
     mCode := None;
     mMessage := EmptyString;
     mClientType := EmptyString;
     mClientID := EmptyString;
     mStatus := EmptyString;
     mAccessToken := EmptyString;
     mID := EmptyString;
     mRole := EmptyString;
     mName := EmptyString;
     mGroup := EmptyString;
     mTraceID := EmptyString;
     mRecipientClientID := serial c;
     mSenderClientID := ID (ticket c);
     mSessionID := sessionID c;
     mMessageType := "SDP_OFFER";
     mMessagePayload := encoded;
     mMode := "vicoo";
     mViewerType := "a4x_sdk";
     mResolution := "1280x720";
     mVersion := "0.0.1";
     mTimestamp := 0;
     mReason := 0 |}.

Definition SendSDPOffer (c : Client) (sdp : string) : Client :=
  sendJSON c (sdpOfferMessage c sdp).

Definition iceCandidateMessage (c : Client) (sdpMid : string)
    (sdpMLineIndex : Z) (candidate : string) : message :=
  let payload := mkICECandidatePayload sdpMid sdpMLineIndex candidate in
  let payloadJSON :=
    ignoring_error (json_Marshal_ICECandidatePayload payload) in
  let encoded := base64_EncodeToString payloadJSON in
  {| mMethod := "TRANSMIT";
     mCode := None;
     mMessage := EmptyString;
     mClientType := EmptyString;
     mClientID := EmptyString;
     mStatus := EmptyString;
     mAccessToken := EmptyString;
     mID := EmptyString;
     mRole := EmptyString;
     mName := EmptyString;
     mGroup := EmptyString;
     mTraceID := EmptyString;
     mRecipientClientID := serial c;
     mSenderClientID := ID (ticket c);
     mSessionID := sessionID c;
     mMessageType := "ICE_CANDIDATE";
     mMessagePayload := encoded;
     mMode := EmptyString;
     mViewerType := EmptyString;
     mResolution := EmptyString;
     mVersion := "0.0.1";
     mTimestamp := 0;
     mReason := 0 |}.

Definition SendICECandidate (c : Client) (sdpMid : string)
    (sdpMLineIndex : Z) (candidate : string) : Client :=
  sendJSON c (iceCandidateMessage c sdpMid sdpMLineIndex candidate).

(** [dispatch]: the handler calls it makes, in order (its other effects are
    log lines). *)
Definition dispatch (msg : message) : list callback :=
  if mMethod msg =? "AUTH_RESPONSE" then
    match mCode msg with
    | Some code => if (code =? 0)%Z then [OnAuthSuccess] else []
    | None => []
    end
  else if mMethod msg =? "JOIN_LIVE_RESPONSE" then []
  else if mMethod msg =? "PEER_IN" then [OnPeerIn]
  else if mMethod msg =? "PEER_OUT" then [OnPeerOut]
  else if mMethod msg =? "TRANSMIT" then
    if mMessageType msg =? "SDP_ANSWER" then
      match base64_DecodeString (mMessagePayload msg) with
      | Error _ => []
      | Value decoded =>
          match json_Unmarshal_SDPPayload decoded with
          | Error _ => []
          | Value sdp => [OnSDPAnswer sdp]
          end
      end
    else if mMessageType msg =? "ICE_CANDIDATE" then
      match base64_DecodeString (mMessagePayload msg) with
      | Error _ => []
      | Value decoded =>
          match json_Unmarshal_ICECandidatePayload decoded with
          | Error _ => []
          | Value candidate => [OnRemoteICECandidate candidate]
          end
      end
    else []
  else if (mMethod msg =? "TRANSMIT_RESPONSE") || (mMethod msg =? "RESPONSE")
  then []
  else [].

(** What one turn of the read loop meets: the client already closed, a
    failed read, or a frame. *)
Inductive read : Type :=
| SeenClosed
| ReadError
| ReadFrame (data : string).

Section ReadLoop.
Variable H : Type.
Variable handle : callback -> H -> result H.

Fixpoint handleAll (calls : list callback) (h : H) : result H :=
  match calls with
  | [] => Ok h
  | call :: rest => (h' <- handle call h ;; handleAll rest h')%go
  end.

(** [readLoop] over the turns it gets; it returns (and the deferred [Close]
    runs) at the first closed or failed read, and has nothing more to do
    when the turns are used up. *)
Fixpoint readLoop (reads : list read) (h : H) : result H :=
  match reads with
  | [] => Ok h
  | SeenClosed :: _ => Ok h
  | ReadError :: _ => Ok h
  | ReadFrame data :: rest =>
      match json_Unmarshal_message data with
      | Error _ => readLoop rest h
      | Value msg => (h' <- handleAll (dispatch msg) h ;; readLoop rest h')%go
      end
  end.

End ReadLoop.
End Client.

(** The methods [dispatch] handles. *)
Definition dispatched_methods : list string :=
  ["AUTH_RESPONSE"; "JOIN_LIVE_RESPONSE"; "PEER_IN"; "PEER_OUT"; "TRANSMIT";
   "TRANSMIT_RESPONSE"; "RESPONSE"].

(** The message types [dispatch] handles for TRANSMIT. *)
Definition dispatched_message_types : list string :=
  ["SDP_ANSWER"; "ICE_CANDIDATE"].

Definition mem (x : string) (l : list string) : bool :=
  existsb (String.eqb x) l.

Definition is_error {A : Type} (r : or_error A) : bool :=
  match r with
  | Error _ => true
  | Value _ => false
  end.

(** The frames the specification says are dropped: the frame is not JSON;
    or its method is not a dispatched one; or it is a TRANSMIT whose message
    type is unknown, or whose payload is not base64, or whose decoded
    payload is not the JSON of its message type. *)
Definition dropped {transport : Transport} (data : string) : bool :=
  match json_Unmarshal_message data with
  | Error _ => true
  | Value msg =>
      if negb (mem (mMethod msg) dispatched_methods) then true
      else if mMethod msg =? "TRANSMIT" then
        if negb (mem (mMessageType msg) dispatched_message_types) then true
        else
          match base64_DecodeString (mMessagePayload msg) with
          | Error _ => true
          | Value decoded =>
              if mMessageType msg =? "SDP_ANSWER"
              then is_error (json_Unmarshal_SDPPayload decoded)
              else is_error (json_Unmarshal_ICECandidatePayload decoded)
          end
      else false
  end.

End Signal.

(** ** Package viewer *)

Module Viewer.
Import Domain Webrtc Signal.

Section Viewer.
Context {engine : PionEngine} {transport : Transport}.

(** [Viewer]: [peer] and [signal] are the collaborators of the source;
    [cancel] counts the calls of the cancel function; [spawned] holds the
    candidates of the goroutines that [OnRemoteICECandidate] started and
    that have not yet returned from [AddRemoteICECandidate]. *)
Record Viewer : Type := mkViewer {
  peer : Peer;
  signal : Client;
  cancel : nat;
  spawned : list ICECandidatePayload
}.

Definition New (p : Peer) (s : Client) : Viewer := mkViewer p s 0 [].

Definition OnAuthSuccess (v : Viewer) : result Viewer :=
  Ok (mkViewer (peer v) (SendJoinLive (signal v)) (cancel v) (spawned v)).

Definition OnPeerIn (v : Viewer) : result Viewer :=
  let (p', offer) := CreateOffer (peer v) in
  match offer with
  | Error _ => Exit 1
  | Value sdp =>
      Ok (mkViewer p' (SendSDPOffer (signal v) sdp) (cancel v) (spawned v))
  end.

Definition OnPeerOut (v : Viewer) : result Viewer :=
  Ok (mkViewer (peer v) (signal v) (S (cancel v)) (spawned v)).

Definition OnSDPAnswer (sdp : SDPPayload) (v : Viewer) : result Viewer :=
  (r <- SetRemoteDescription (peer v) sdp ;;
   Ok (mkViewer (fst r) (signal v) (cancel v) (spawned v)))%go.

Definition OnRemoteICECandidate (candidate : ICECandidatePayload)
    (v : Viewer) : result Viewer :=
  Ok (mkViewer (peer v) (signal v) (cancel v) (spawned v ++ [candidate])).

(** The viewer as the handler of the client. *)
Definition handle (call : callback) (v : Viewer) : result Viewer :=
  match call with
  | Signal.OnAuthSuccess => OnAuthSuccess v
  | Signal.OnPeerIn => OnPeerIn v
  | Signal.OnPeerOut => OnPeerOut v
  | Signal.OnSDPAnswer sdp => OnSDPAnswer sdp v
  | Signal.OnRemoteICECandidate candidate => OnRemoteICECandidate candidate v
  end.

(** What happens in a session, one event at a time: the read loop hands a
    call to the viewer, or the goroutine at position [i] of [spawned] gets
    past [AddRemoteICECandidate]. The handlers run to their end before the
    next event; a goroutine that finds the channel open stays where it
    is. *)
Inductive event : Type :=
| Handled (call : callback)
| Proceeds (i : nat).

Fixpoint remove_nth {A : Type} (i : nat) (l : list A) : list A :=
  match l, i with
  | [], _ => []
  | _ :: rest, O => rest
  | a :: rest, S i' => a :: remove_nth i' rest
  end.

(** One event; [None] when it cannot happen (the goroutine is blocked or
    does not exist) or ends the process. *)
Definition perform (v : Viewer) (ev : event) : option Viewer :=
  match ev with
  | Handled call =>
      match handle call v with
      | Ok v' => Some v'
      | _ => None
      end
  | Proceeds i =>
      match nth_error (spawned v) i with
      | None => None
      | Some candidate =>
          match AddRemoteICECandidate (peer v) candidate with
          | Blocked _ => None
          | Returned (p', _) =>
              Some (mkViewer p' (signal v) (cancel v)
                      (remove_nth i (spawned v)))
          end
      end
  end.

(** The events of a session, oldest first. *)
Fixpoint exec (v : Viewer) (evs : list event) : option Viewer :=
  match evs with
  | [] => Some v
  | ev :: rest =>
      match perform v ev with
      | Some v' => exec v' rest
      | None => None
      end
  end.

(** The candidates the signaling side delivered in a run. *)
Fixpoint candidates_received (evs : list event)
    : list ICECandidatePayload :=
  match evs with
  | [] => []
  | Handled (Signal.OnRemoteICECandidate c) :: rest =>
      c :: candidates_received rest
  | _ :: rest => candidates_received rest
  end.

End Viewer.
End Viewer.

(** ** Stand-ins for the engine and the transport, for concrete runs *)

Module Standin.
Import Domain Webrtc Signal.
Local Open Scope string_scope.

(** An engine whose connection is the offer it will make: it fails to make
    an empty offer and accepts everything else. *)
Definition engine : PionEngine := {|
  PeerConnection := string;
  pcCreateOffer pc :=
    (pc, if pc =? EmptyString then Error "no offer" else Value pc);
  pcSetLocalDescription pc _ := (pc, None);
  pcSetRemoteDescription pc _ := (pc, None);
  pcAddICECandidate pc _ := (pc, None)
|}.

(** The message with a method and nothing else. *)
Definition methodOnly (method : string) : message :=
  let e := EmptyString in
  mkMessage method None e e e e e e e e e e e e e e e e e e e 0 0.

(** A transport whose frames are bare method names, and whose codecs fail
    on everything else. *)
Definition transport : Transport := {|
  Conn := list string;
  connWriteMessage conn data := ((conn ++ [data])%list, None);
  json_Marshal_message msg := Value (mMethod msg);
  json_Marshal_SDPPayload sdp := Value (SDP sdp);
  json_Marshal_ICECandidatePayload c := Value (Candidate c);
  json_Unmarshal_message data :=
    if data =? EmptyString then Error "unexpected end of JSON input"
    else Value (methodOnly data);
  json_Unmarshal_SDPPayload data := Value (mkSDPPayload "answer" data);
  json_Unmarshal_ICECandidatePayload data :=
    Value (mkICECandidatePayload "0" 0 data);
  base64_EncodeToString data := data;
  base64_DecodeString data := Value data
|}.

Definition aTicket : Ticket :=
  mkTicket "trace" "group" "id" "wss://host" 30 "/ws" "token".

Definition aClient : @Client transport :=
  @mkClient transport [] aTicket "serial" "Android-id-0" ChanOpen [] [].

Definition aViewer (offer : string) : @Viewer.Viewer engine transport :=
  Viewer.New (@NewPeer engine offer) aClient.

Definition anAnswer : SDPPayload := mkSDPPayload "answer" "v=0".

Definition aCandidate : ICECandidatePayload :=
  mkICECandidatePayload "0" 0 "candidate:123".

(** A session: a candidate arrives early, then peer-in, the answer, and
    the waiting goroutine goes on. *)
Definition aRun : list Viewer.event :=
  [Viewer.Handled (OnRemoteICECandidate aCandidate);
   Viewer.Handled OnPeerIn;
   Viewer.Handled (OnSDPAnswer anAnswer);
   Viewer.Proceeds 0].

Definition afterRun : @Viewer.Viewer engine transport :=
  match Viewer.exec (aViewer "v=0") aRun with
  | Some v => v
  | None => aViewer "v=0"
  end.

End Standin.

(** ** More of the depacketizer's vocabulary *)

(** The started flag says whether the buffer holds something. *)
Definition consistent (d : H264Depacketizer) : bool :=
  Bool.eqb (fuaStarted d)
    (match fuaBuf d with
     | [] => false
     | _ :: _ => true
     end).

(** The payload is a single NAL unit packet: its type is in 1..23. *)
Definition isSingle (payload : list byte) : bool :=
  match payload with
  | b0 :: _ => (1 <=? nalType b0) && (nalType b0 <=? 23)
  | [] => false
  end.

(** No unit of the result is empty. *)
Definition no_empty_unit (out : nalus) : bool :=
  forallb (fun u => negb (len u =? 0)) out.

(** A size as two bytes, most significant first. *)
Definition size_bytes (n : Z) : list byte :=
  [byte_of_Z (n / 256); byte_of_Z (n mod 256)].

(** The body of a STAP-A packet as [TestDepacketize_STAPA] builds it: each
    unit after its two size bytes. *)
Definition stapa_body (units : nalus) : list byte :=
  concat (map (fun u => size_bytes (len u) ++ u) units).

(** ** [readVideoTrack] of peer.go, on the depacketizer it calls *)

Module Track.

(** Successive calls of the depacketizer without sequence numbers. *)
Fixpoint feed (d : Unsequenced.H264Depacketizer) (payloads : list (list byte))
    : result (Unsequenced.H264Depacketizer * list nalus) :=
  match payloads with
  | [] => Ok (d, [])
  | payload :: rest =>
      r <- Unsequenced.Depacketize d payload ;;
      r' <- feed (fst r) rest ;;
      Ok (fst r', snd r :: snd r')
  end.

Definition startCode : list byte := [x00; x00; x00; x01].

(** The inner loop: the sink [w] is what was written so far (the results of
    [w.Write] are not looked at in the source). *)
Fixpoint writeNalus (w : list byte) (units : nalus) : list byte :=
  match units with
  | [] => w
  | nalu :: rest =>
      if len nalu =? 0 then writeNalus w rest
      else writeNalus ((w ++ startCode) ++ nalu) rest
  end.

(** The outer loop over the results of [track.ReadRTP]: a payload, or the
    error on which the function returns. *)
Fixpoint readLoop (depack : Unsequenced.H264Depacketizer)
    (reads : list (or_error (list byte))) (w : list byte)
    : result (list byte) :=
  match reads with
  | [] => Ok w
  | Error _ :: _ => Ok w
  | Value payload :: rest =>
      r <- Unsequenced.Depacketize depack payload ;;
      readLoop (fst r) rest (writeNalus w (snd r))
  end.

Definition readVideoTrack (reads : list (or_error (list byte)))
    (w : list byte) : result (list byte) :=
  readLoop Unsequenced.NewH264Depacketizer reads w.

(** The Annex-B stream of some units. *)
Definition annexB (units : nalus) : list byte :=
  concat (map (fun u => startCode ++ u) units).

Definition nonempty (units : nalus) : nalus :=
  filter (fun u => negb (len u =? 0)) units.

End Track.

(** ** Local ICE candidates (peer.go: [isLoopback], [SetOnICECandidate]) *)

Module Local.
Local Open Scope string_scope.

Fixpoint hasPrefix (s prefix : string) : bool :=
  match prefix, s with
  | EmptyString, _ => true
  | String _ _, EmptyString => false
  | String c prefix', String c' s' => Ascii.eqb c c' && hasPrefix s' prefix'
  end.

(** [strings.Contains]. *)
Fixpoint contains (s substr : string) : bool :=
  hasPrefix s substr
  || match s with
     | EmptyString => false
     | String _ s' => contains s' substr
     end.

Definition isLoopback (candidate : string) : bool :=
  contains candidate "127.0.0.1" || contains candidate "::1 ".

(** [substr] occurs in [s]. *)
Definition has_substring (s substr : string) : Prop :=
  exists pre post, s = pre ++ substr ++ post.

(** What [c.ToJSON()] gives for a candidate: two of its fields are
    pointers. *)
Record ICECandidateJSON : Type := mkICECandidateJSON {
  jCandidate : string;
  jSDPMid : option string;
  jSDPMLineIndex : option Z
}.

(** The function that [SetOnICECandidate] registers, on the state [S] that
    [send] works on; [None] is the nil candidate that ends gathering. *)
Definition onICECandidate {S : Type} (send : string -> Z -> string -> S -> S)
    (c : option ICECandidateJSON) (s : S) : S :=
  match c with
  | None => s
  | Some j =>
      let candidateStr := jCandidate j in
      if isLoopback candidateStr then s
      else
        let sdpMid := match jSDPMid j with
                      | Some mid => mid
                      | None => EmptyString
                      end in
        let sdpMLineIndex := match jSDPMLineIndex j with
                             | Some i => i
                             | None => 0
                             end in
        send sdpMid sdpMLineIndex candidateStr s
  end.

(** A [send] that keeps what it is given, oldest first. *)
Definition record_send (sdpMid : string) (sdpMLineIndex : Z)
    (candidate : string) (log : list (string * Z * string))
    : list (string * Z * string) :=
  (log ++ [(sdpMid, sdpMLineIndex, candidate)])%list.

(** The candidates of a gathering, one call each. *)
Definition gather {S : Type} (send : string -> Z -> string -> S -> S)
    (cs : list (option ICECandidateJSON)) (s : S) : S :=
  fold_left (fun s c => onICECandidate send c s) cs s.

(** The candidates of a gathering without the nil ones, in order. *)
Fixpoint present (cs : list (option ICECandidateJSON))
    : list ICECandidateJSON :=
  match cs with
  | [] => []
  | Some j :: rest => j :: present rest
  | None :: rest => present rest
  end.

(** What [send] is given for a candidate: the mid (empty without one), the
    line index (0 without one), the candidate string. *)
Definition send_arguments (j : ICECandidateJSON) : string * Z * string :=
  (match jSDPMid j with Some mid => mid | None => EmptyString end,
   match jSDPMLineIndex j with Some i => i | None => 0%Z end,
   jCandidate j).

(** Step 8 of [main]: the callback sends through the signaling client. *)
Definition forward {transport : Signal.Transport}
    (c : option ICECandidateJSON) (sc : Signal.Client) : Signal.Client :=
  onICECandidate
    (fun sdpMid sdpMLineIndex candidate sc =>
       Signal.SendICECandidate sc sdpMid sdpMLineIndex candidate)
    c sc.

End Local.

(** ** Package config *)

Module Config.
Local Open Scope string_scope.

Record Config : Type := mkConfig {
  Token : string;
  SerialNumber : string
}.

(** The environment: a variable is set or not. *)
Definition environ : Type := string -> option string.

(** [os.Getenv]: the value, empty when the variable is not set. *)
Definition Getenv (env : environ) (key : string) : string :=
  match env key with
  | Some value => value
  | None => EmptyString
  end.

(** [Load]; [dotenv] is what [godotenv.Load] does to the environment. *)
Definition Load (dotenv : environ -> environ) (env : environ)
    : or_error Config :=
  let env := dotenv env in
  let token := Getenv env "VICO_TOKEN" in
  if token =? EmptyString then
    Error "VICO_TOKEN environment variable is required"
  else
    let sn := Getenv env "VICO_SN" in
    if sn =? EmptyString then
      Error "VICO_SN environment variable is required"
    else Value (mkConfig token sn).

(** [godotenv.Load], as the comment in [Load] says: it sets the variables of
    the file that the environment does not have. *)
Definition keeps_existing (dotenv : environ -> environ) : Prop :=
  forall env key value, env key = Some value -> dotenv env key = Some value.

(** An environment for concrete runs. *)
Definition anEnviron : environ :=
  fun key =>
    if key =? "VICO_TOKEN" then Some "jwt"
    else if key =? "VICO_SN" then Some "SN123"
    else None.

(** A [.env] file that names other values for every variable. *)
Definition aDotenv : environ -> environ :=
  fun env key =>
    match env key with
    | Some value => Some value
    | None => Some "from-file"
    end.

End Config.

(** ** More of the signaling client's vocabulary *)

Module Sends.
Import Domain Webrtc Signal.

Section Sends.
Context {transport : Transport}.

(** The frames of some messages: those that [json.Marshal] accepts. *)
Fixpoint marshalled (msgs : list message) : list string :=
  match msgs with
  | [] => []
  | msg :: rest =>
      match json_Marshal_message msg with
      | Value data => data :: marshalled rest
      | Error _ => marshalled rest
      end
  end.

(** The sending methods of the client. *)
Inductive send_call : Type :=
| CallSendAuth
| CallSendJoinLive
| CallSendSDPOffer (sdp : string)
| CallSendICECandidate (sdpMid : string) (sdpMLineIndex : Z)
    (candidate : string).

Definition send (c : Client) (call : send_call) : Client :=
  match call with
  | CallSendAuth => sendAuth c
  | CallSendJoinLive => SendJoinLive c
  | CallSendSDPOffer sdp => SendSDPOffer c sdp
  | CallSendICECandidate sdpMid sdpMLineIndex candidate =>
      SendICECandidate c sdpMid sdpMLineIndex candidate
  end.


End Sends.
End Sends.

(** ** The session with the local candidates *)

Module Session.
Import Domain Webrtc Signal Viewer.
Local Open Scope string_scope.

Section Session.
Context {engine : PionEngine} {transport : Transport}.

(** What happens in a session once [Connect] has returned: an event of the
    viewer (a handler call of the read loop, a candidate goroutine going
    on), or the engine reporting a local candidate to the callback that
    step 8 of [main] registers. Each [sendJSON] runs under the mutex of the
    client, so the sends do not interleave. *)
Inductive event : Type :=
| OfViewer (ev : Viewer.event)
| LocalCandidate (c : option Local.ICECandidateJSON).

Definition perform (v : Viewer) (ev : event) : option Viewer :=
  match ev with
  | OfViewer ev => Viewer.perform v ev
  | LocalCandidate c =>
      Some (mkViewer (peer v) (Local.forward c (signal v)) (cancel v)
              (spawned v))
  end.

Fixpoint exec (v : Viewer) (evs : list event) : option Viewer :=
  match evs with
  | [] => Some v
  | ev :: rest =>
      match perform v ev with
      | Some v' => exec v' rest
      | None => None
      end
  end.

End Session.

(** Method and message type of a message. *)
Definition frame_kind (msg : message) : string * string :=
  (mMethod msg, mMessageType msg).

(** The kinds of the messages an event is expected to send: JOIN_LIVE for
    [OnAuthSuccess], the SDP offer for [OnPeerIn], the candidate for a local
    candidate that is neither nil nor loopback, and nothing otherwise. *)
Definition expected_frames (ev : event) : list (string * string) :=
  match ev with
  | OfViewer (Handled Signal.OnAuthSuccess) => [("JOIN_LIVE", EmptyString)]
  | OfViewer (Handled Signal.OnPeerIn) => [("TRANSMIT", "SDP_OFFER")]
  | LocalCandidate (Some j) =>
      if Local.isLoopback (Local.jCandidate j) then []
      else [("TRANSMIT", "ICE_CANDIDATE")]
  | _ => []
  end.

(** The [OnPeerOut] calls of a run. *)
Fixpoint peer_out_calls (evs : list event) : nat :=
  match evs with
  | [] => 0
  | OfViewer (Handled Signal.OnPeerOut) :: rest => S (peer_out_calls rest)
  | _ :: rest => peer_out_calls rest
  end.

End Session.

(** ** More stand-ins *)

Module StandinMore.
Import Domain Webrtc Signal.
Local Open Scope string_scope.

(** An engine like [Standin.engine] that rejects an empty remote
    description. *)
Definition strictEngine : PionEngine := {|
  PeerConnection := string;
  pcCreateOffer pc :=
    (pc, if pc =? EmptyString then Error "no offer" else Value pc);
  pcSetLocalDescription pc _ := (pc, None);
  pcSetRemoteDescription pc sdp :=
    (pc, if sdp =? EmptyString then Some "empty description" else None);
  pcAddICECandidate pc _ := (pc, None)
|}.

Definition strictViewer : @Viewer.Viewer strictEngine Standin.transport :=
  Viewer.New (@NewPeer strictEngine "v=0") Standin.aClient.

Definition anotherCandidate : ICECandidatePayload :=
  mkICECandidatePayload "1" 70000 "candidate:456".

(** Two candidates arrive, then peer-in and the answer: both goroutines are
    waiting behind the released gate. *)
Definition released : @Viewer.Viewer Standin.engine Standin.transport :=
  match Viewer.exec (Standin.aViewer "v=0")
          [Viewer.Handled (OnRemoteICECandidate Standin.aCandidate);
           Viewer.Handled (OnRemoteICECandidate anotherCandidate);
           Viewer.Handled OnPeerIn;
           Viewer.Handled (OnSDPAnswer Standin.anAnswer)] with
  | Some v => v
  | None => Standin.aViewer "v=0"
  end.

(** A host candidate as the engine reports it. *)
Definition aLocalCandidate : Local.ICECandidateJSON :=
  Local.mkICECandidateJSON
    "candidate:1 1 udp 2130706431 192.168.1.2 50000 typ host"
    (Some "0") (Some 0).

Definition aLoopbackCandidate : Local.ICECandidateJSON :=
  Local.mkICECandidateJSON
    "candidate:2 1 udp 2130706431 127.0.0.1 50001 typ host"
    (Some "0") (Some 0).

(** A session after [Connect] (the AUTH frame is out): authentication,
    peer-in with local candidates reported in between, a remote candidate,
    the answer, peer-out. *)
Definition aSession : list (@Session.event) :=
  [Session.OfViewer (Viewer.Handled OnAuthSuccess);
   Session.OfViewer (Viewer.Handled OnPeerIn);
   Session.LocalCandidate (Some aLoopbackCandidate);
   Session.LocalCandidate (Some aLocalCandidate);
   Session.OfViewer (Viewer.Handled (OnRemoteICECandidate Standin.aCandidate));
   Session.LocalCandidate None;
   Session.OfViewer (Viewer.Handled (OnSDPAnswer Standin.anAnswer));
   Session.OfViewer (Viewer.Proceeds 0);
   Session.OfViewer (Viewer.Handled OnPeerOut)].

Definition connected : @Viewer.Viewer Standin.engine Standin.transport :=
  Viewer.New (@NewPeer Standin.engine "v=0") (sendAuth Standin.aClient).

Definition afterSession : @Viewer.Viewer Standin.engine Standin.transport :=
  match Session.exec connected aSession with
  | Some v => v
  | None => connected
  end.

End StandinMore.

(** ** [NewPeer] of peer.go: setting the engine up *)

Module Setup.
Local Open Scope string_scope.

(** [domain.ICEServer]. *)
Record ICEServer : Type := mkICEServer {
  URL : string;
  Username : string;
  Credential : string;
  IPAddress : string
}.

(** [pion.ICEServer], the fields [NewPeer] fills. *)
Record PionICEServer : Type := mkPionICEServer {
  URLs : list string;
  pUsername : string;
  pCredential : string
}.

(** The calls [NewPeer] makes on the engine that can fail or that dispose
    of something; [made] says whether the call gave a peer connection. *)
Inductive setup_call : Type :=
| RegisterCodec (mimeType : string) (clockRate : Z) (payloadType : Z)
    (video : bool)
| NewResponderInterceptor
| NewPeerConnection (servers : list PionICEServer) (made : bool)
| CreateDataChannel (label : string)
| ClosePeerConnection.

(** What the engine answers to them, in the order of the calls: an error or
    none. *)
Record replies : Type := mkReplies {
  registerH264 : option string;
  registerPCMU : option string;
  newResponder : option string;
  newPeerConnection : option string;
  createDataChannel : option string
}.

(** [NewPeer]: the calls made, oldest first, and the error returned, if
    any (without one, the peer is returned with its channel open). *)
Definition NewPeer (r : replies) (iceServers : list ICEServer)
    (serialNumber : string) : list setup_call * option string :=
  let h264 := RegisterCodec "video/H264" 90000 121 true in
  match registerH264 r with
  | Some err => ([h264], Some ("register H264: " ++ err))
  | None =>
      let pcmu := RegisterCodec "audio/PCMU" 8000 0 false in
      match registerPCMU r with
      | Some err => ([h264; pcmu], Some ("register PCMU: " ++ err))
      | None =>
          match newResponder r with
          | Some err =>
              ([h264; pcmu; NewResponderInterceptor],
               Some ("create nack responder: " ++ err))
          | None =>
              let servers :=
                map (fun s => mkPionICEServer [URL s] (Username s)
                                (Credential s)) iceServers in
              match newPeerConnection r with
              | Some err =>
                  ([h264; pcmu; NewResponderInterceptor;
                    NewPeerConnection servers false],
                   Some ("create peer connection: " ++ err))
              | None =>
                  let pc := NewPeerConnection servers true in
                  let dc := CreateDataChannel serialNumber in
                  match createDataChannel r with
                  | Some err =>
                      ([h264; pcmu; NewResponderInterceptor; pc; dc;
                        ClosePeerConnection],
                       Some ("create data channel: " ++ err))
                  | None =>
                      ([h264; pcmu; NewResponderInterceptor; pc; dc], None)
                  end
              end
          end
      end
  end.

(** The peer connections made and not closed again by some calls. *)
Fixpoint open_connections (cs : list setup_call) : Z :=
  match cs with
  | [] => 0
  | NewPeerConnection _ true :: rest => 1 + open_connections rest
  | ClosePeerConnection :: rest => open_connections rest - 1
  | _ :: rest => open_connections rest
  end.

Definition is_connection (c : setup_call) : bool :=
  match c with
  | NewPeerConnection _ _ => true
  | _ => false
  end.

Definition all_accepted (r : replies) : bool :=
  match registerH264 r, registerPCMU r, newResponder r,
        newPeerConnection r, createDataChannel r with
  | None, None, None, None, None => true
  | _, _, _, _, _ => false
  end.

End Setup.

(** * Properties *)

(** ** The tests of the repository, replayed *)

Example test_SingleNAL :
  Depacketize NewH264Depacketizer 100 [x65; x01; x02; x03]
  = Ok (NewH264Depacketizer, [[x65; x01; x02; x03]]).
Proof. reflexivity. Qed.

Example test_STAPA :
  Depacketize NewH264Depacketizer 100
    [x18; x00; x03; x67; xaa; xbb; x00; x02; x68; xcc]
  = Ok (NewH264Depacketizer, [[x67; xaa; xbb]; [x68; xcc]]).
Proof. reflexivity. Qed.

Example test_FUA :
  feed NewH264Depacketizer
    [(100, [x7c; x85; x01; x02]); (101, [x7c; x05; x03; x04]);
     (102, [x7c; x45; x05; x06])]
  = Ok (mkDepacketizer [] false 103,
        [[]; []; [[x65; x01; x02; x03; x04; x05; x06]]]).
Proof. reflexivity. Qed.

Example test_FUADropsOnSequenceGap :
  feed NewH264Depacketizer
    [(100, [x7c; x85; x01; x02]); (102, [x7c; x05; x03; x04]);
     (103, [x7c; x45; x05; x06])]
  = Ok (mkDepacketizer [] false 101, [[]; []; []]).
Proof. reflexivity. Qed.

Example test_STAPAIgnoresZeroSizeNALU :
  Depacketize NewH264Depacketizer 100 [x18; x00; x00]
  = Ok (NewH264Depacketizer, []).
Proof. reflexivity. Qed.

(** ** Slices *)

Lemma len_nil (A : Type) : len (@nil A) = 0.
Proof. reflexivity. Qed.

Lemma len_cons (A : Type) (a : A) (s : list A) : len (a :: s) = len s + 1.
Proof. unfold len. cbn [List.length]. lia. Qed.

Lemma len_app (A : Type) (s t : list A) : len (s ++ t) = len s + len t.
Proof. unfold len. rewrite length_app. lia. Qed.

Lemma len_nonneg (A : Type) (s : list A) : 0 <= len s.
Proof. unfold len. lia. Qed.

Lemma index_app_r (pre s : list byte) (b : byte) :
  index (pre ++ b :: s) (len pre) = Ok b.
Proof.
  unfold index. rewrite len_app, len_cons.
  pose proof (len_nonneg pre). pose proof (len_nonneg s).
  replace (0 <=? len pre) with true by (symmetry; apply Z.leb_le; lia).
  replace (len pre <? len pre + (len s + 1)) with true
    by (symmetry; apply Z.ltb_lt; lia).
  cbn [andb]. unfold len. rewrite Nat2Z.id.
  rewrite nth_error_app2 by lia. rewrite Nat.sub_diag. reflexivity.
Qed.

Lemma index_0 (b : byte) (s : list byte) : index (b :: s) 0 = Ok b.
Proof. apply (index_app_r [] s b). Qed.

Lemma index_1 (a b : byte) (s : list byte) : index (a :: b :: s) 1 = Ok b.
Proof. apply (index_app_r [a] s b). Qed.

Lemma slice_app (pre s : list byte) (n : Z) :
  0 <= n <= len s ->
  slice (pre ++ s) (len pre) (len pre + n) = Ok (firstn (Z.to_nat n) s).
Proof.
  intros Hn. unfold slice. rewrite len_app.
  pose proof (len_nonneg pre).
  replace (0 <=? len pre) with true by (symmetry; apply Z.leb_le; lia).
  replace (len pre <=? len pre + n) with true
    by (symmetry; apply Z.leb_le; lia).
  replace (len pre + n <=? len pre + len s) with true
    by (symmetry; apply Z.leb_le; lia).
  cbn [andb]. f_equal.
  replace (len pre + n - len pre) with n by lia.
  unfold len. rewrite Nat2Z.id.
  rewrite skipn_app, Nat.sub_diag, skipn_all. reflexivity.
Qed.

Lemma slice_from_2 (a b : byte) (s : list byte) :
  slice_from (a :: b :: s) 2 = Ok s.
Proof.
  unfold slice_from.
  replace (len (a :: b :: s)) with (len [a; b] + len s)
    by (rewrite !len_cons, len_nil; lia).
  change (a :: b :: s) with ([a; b] ++ s).
  change 2 with (len [a; b]) at 1.
  rewrite slice_app by (pose proof (len_nonneg s); lia).
  unfold len. rewrite Nat2Z.id, firstn_all. reflexivity.
Qed.

(** ** The depacketizer, call by call *)

Lemma len_lt_1_cons (A : Type) (a : A) (s : list A) :
  (len (a :: s) <? 1) = false.
Proof. apply Z.ltb_ge. rewrite len_cons. pose proof (len_nonneg s). lia. Qed.

Lemma len_lt_2_cons (A : Type) (a b : A) (s : list A) :
  (len (a :: b :: s) <? 2) = false.
Proof.
  apply Z.ltb_ge. rewrite !len_cons. pose proof (len_nonneg s). lia.
Qed.

(** [depacketizeFUA] on a payload that carries a FU header, as one
    expression over the flags. *)
Lemma depacketizeFUA_fragment (d : H264Depacketizer) (s : Z) (f : fragment) :
  depacketizeFUA d s (bytes f) =
  Ok (if startFlag (header f) then
        if endFlag (header f) then
          (mkDepacketizer [] false (uint16_succ s),
           [nalHeader (indicator f) (header f) :: data f])
        else
          (mkDepacketizer (nalHeader (indicator f) (header f) :: data f)
             true (uint16_succ s), [])
      else if negb (fuaStarted d) then (d, [])
      else if negb (s =? expectedSeq d) then
        (mkDepacketizer [] false (expectedSeq d), [])
      else if endFlag (header f) then
        (mkDepacketizer [] false (uint16_succ s), [fuaBuf d ++ data f])
      else
        (mkDepacketizer (fuaBuf d ++ data f) true (uint16_succ s), [])).
Proof.
  unfold depacketizeFUA, bytes.
  rewrite len_lt_2_cons, index_0. cbn [bind]. rewrite index_1. cbn [bind].
  rewrite !slice_from_2. cbn [bind].
  fold (startFlag (header f)). fold (endFlag (header f)).
  fold (nalHeader (indicator f) (header f)).
  destruct (startFlag (header f)), (endFlag (header f)),
    (negb (fuaStarted d)), (negb (s =? expectedSeq d)); reflexivity.
Qed.

(** The dispatch of [Depacketize] on the type of a non-empty payload. *)
Lemma Depacketize_cons (d : H264Depacketizer) (s : Z) (b0 : byte)
    (rest : list byte) :
  Depacketize d s (b0 :: rest) =
  if (1 <=? nalType b0) && (nalType b0 <=? 23) then Ok (d, [b0 :: rest])
  else if nalType b0 =? 24 then depacketizeSTAPA d (b0 :: rest)
  else if nalType b0 =? 28 then depacketizeFUA d s (b0 :: rest)
  else Ok (d, []).
Proof.
  unfold Depacketize. rewrite len_lt_1_cons, index_0. reflexivity.
Qed.

Lemma Depacketize_fua (d : H264Depacketizer) (s : Z) (b0 : byte)
    (rest : list byte) :
  nalType b0 = 28 ->
  Depacketize d s (b0 :: rest) = depacketizeFUA d s (b0 :: rest).
Proof. intros H. rewrite Depacketize_cons, H. reflexivity. Qed.

(** ** STAP-A *)

Lemma u8_range (b : byte) : 0 <= u8 b < 256.
Proof.
  unfold u8. pose proof (Byte.to_N_bounded b) as H. lia.
Qed.

(** The source's [int(b1)<<8 | int(b2)] is the big-endian value. *)
Lemma lor_shiftl_be16 (b1 b2 : byte) :
  Z.lor (Z.shiftl (u8 b1) 8) (u8 b2) = be16 b1 b2.
Proof.
  unfold be16. pose proof (u8_range b1) as H1. pose proof (u8_range b2) as H2.
  rewrite Z.shiftl_mul_pow2 by lia.
  assert (Hdisj : Z.land (u8 b1 * 2 ^ 8) (u8 b2) = 0).
  { apply Z.bits_inj'. intros n Hn. rewrite Z.land_spec, Z.bits_0.
    destruct (Z.lt_ge_cases n 8) as [Hlt | Hge].
    - rewrite Z.mul_pow2_bits_low by lia. reflexivity.
    - destruct (Z.eq_dec (u8 b2) 0) as [-> | Hnz].
      + rewrite Z.bits_0. apply andb_false_r.
      + rewrite (Z.bits_above_log2 (u8 b2) n); [apply andb_false_r | lia |].
        apply Z.log2_lt_pow2; [lia |].
        apply Z.lt_le_trans with (2 ^ 8); [lia |].
        apply Z.pow_le_mono_r; lia. }
  rewrite <- Z.lxor_lor by exact Hdisj.
  rewrite <- Z.add_nocarry_lxor by exact Hdisj.
  change (2 ^ 8) with 256. lia.
Qed.

Ltac solve_len :=
  rewrite ?len_cons, ?len_nil in *;
  repeat match goal with
         | H : context [len ?r] |- _ =>
             is_var r;
             lazymatch goal with
             | _ : 0 <= len r |- _ => fail
             | _ => pose proof (len_nonneg r)
             end
         end;
  lia.

Lemma stapa_units_functional (rest : list byte) (us us' : nalus) :
  stapa_units rest us -> stapa_units rest us' -> us = us'.
Proof.
  intros H. revert us'.
  induction H; intros us' H'; inversion H'; subst; try reflexivity;
    try solve_len.
  f_equal. auto.
Qed.

(** The loop, started at the end of any prefix [pre] of the payload with
    fuel for what remains, returns what it had collected followed by the
    units of the remainder. *)
Lemma stapaLoop_units (fuel : nat) :
  forall (pre rest : list byte) (acc : nalus),
    (length rest <= fuel)%nat ->
    exists us,
      stapaLoop fuel (pre ++ rest) (len pre) acc = Ok (acc ++ us)
      /\ stapa_units rest us.
Proof.
  induction fuel as [|fuel IH]; intros pre rest acc Hfuel.
  - destruct rest; [|cbn in Hfuel; lia].
    exists []. split; [|constructor; rewrite len_nil; lia].
    cbn [stapaLoop]. rewrite app_nil_r.
    replace (len pre + 2 <=? len pre) with false
      by (symmetry; apply Z.leb_gt; lia).
    rewrite app_nil_r. reflexivity.
  - cbn [stapaLoop].
    destruct rest as [|b1 [|b2 rest]].
    + exists []. split; [|constructor; rewrite len_nil; lia].
      rewrite !app_nil_r.
      replace (len pre + 2 <=? len pre) with false
        by (symmetry; apply Z.leb_gt; lia).
      reflexivity.
    + exists []. split; [|constructor; rewrite len_cons, len_nil; lia].
      rewrite len_app, len_cons, len_nil, app_nil_r.
      replace (len pre + 2 <=? len pre + (0 + 1)) with false
        by (symmetry; apply Z.leb_gt; lia).
      reflexivity.
    + pose proof (len_nonneg rest) as Hrest.
      pose proof (u8_range b1) as Hb1. pose proof (u8_range b2) as Hb2.
      assert (Hlen : len (pre ++ b1 :: b2 :: rest) = len pre + 2 + len rest)
        by (rewrite len_app, !len_cons; lia).
      rewrite Hlen.
      replace (len pre + 2 <=? len pre + 2 + len rest) with true
        by (symmetry; apply Z.leb_le; lia).
      rewrite index_app_r. cbn [bind].
      replace (pre ++ b1 :: b2 :: rest) with ((pre ++ [b1]) ++ b2 :: rest)
        by (rewrite <- app_assoc; reflexivity).
      replace (len pre + 1) with (len (pre ++ [b1]))
        by (rewrite len_app, len_cons, len_nil; lia).
      rewrite index_app_r. cbn [bind].
      rewrite lor_shiftl_be16.
      destruct (Z.eqb_spec (be16 b1 b2) 0) as [Hz | Hnz].
      { exists []. split; [rewrite app_nil_r; reflexivity |].
        apply stapa_zero. assumption. }
      assert (Hpos : 0 < be16 b1 b2) by (unfold be16 in *; lia).
      destruct (Z.gtb_spec (len pre + 2 + be16 b1 b2)
                  (len pre + 2 + len rest)) as [Hover | Hfit].
      { exists []. split; [rewrite app_nil_r; reflexivity |].
        apply stapa_overrun. lia. }
      replace ((pre ++ [b1]) ++ b2 :: rest) with ((pre ++ [b1; b2]) ++ rest)
        by (rewrite <- !app_assoc; reflexivity).
      replace (len pre + 2) with (len (pre ++ [b1; b2]))
        by (rewrite len_app, !len_cons, len_nil; lia).
      rewrite slice_app by lia. cbn [bind].
      set (n := Z.to_nat (be16 b1 b2)).
      destruct (IH ((pre ++ [b1; b2]) ++ firstn n rest) (skipn n rest)
                  (acc ++ [firstn n rest])) as [us [Hrun Hus]].
      { rewrite length_skipn. cbn [List.length] in Hfuel. lia. }
      rewrite <- app_assoc, firstn_skipn in Hrun.
      replace (len (pre ++ [b1; b2]) + be16 b1 b2)
        with (len ((pre ++ [b1; b2]) ++ firstn n rest)).
      2:{ rewrite (len_app _ (firstn n rest)). f_equal.
          unfold len. rewrite length_firstn. subst n. unfold len in Hfit.
          lia. }
      rewrite <- app_assoc. rewrite <- app_assoc in Hrun.
      exists (firstn n rest :: us). split.
      * rewrite Hrun, <- app_assoc. reflexivity.
      * apply stapa_unit; [lia | exact Hus].
Qed.

Lemma depacketizeSTAPA_units (d : H264Depacketizer) (b0 : byte)
    (rest : list byte) :
  exists us,
    depacketizeSTAPA d (b0 :: rest) = Ok (d, us) /\ stapa_units rest us.
Proof.
  unfold depacketizeSTAPA.
  destruct (@stapaLoop_units (length (b0 :: rest)) [b0] rest [])
    as [us [Hrun Hus]].
  { cbn [List.length]. lia. }
  exists us. split; [|exact Hus].
  change ([b0] ++ rest) with (b0 :: rest) in Hrun.
  change (len [b0]) with 1 in Hrun.
  rewrite Hrun. reflexivity.
Qed.

Lemma Depacketize_not_fua (d : H264Depacketizer) (s : Z)
    (payload : list byte) :
  isFUA payload = false ->
  exists out, Depacketize d s payload = Ok (d, out).
Proof.
  destruct payload as [|b0 rest]; intros H.
  - exists []. reflexivity.
  - cbn [isFUA] in H. rewrite Depacketize_cons, H.
    destruct ((1 <=? nalType b0) && (nalType b0 <=? 23)); [eauto|].
    destruct (nalType b0 =? 24); [|eauto].
    destruct (depacketizeSTAPA_units d b0 rest) as [us [Hrun _]]. eauto.
Qed.

Lemma depacketizeFUA_returns (d : H264Depacketizer) (s : Z)
    (payload : list byte) :
  exists d' out, depacketizeFUA d s payload = Ok (d', out).
Proof.
  destruct payload as [|b0 [|h rest]].
  - exists d, []. reflexivity.
  - exists d, []. reflexivity.
  - change (b0 :: h :: rest) with (bytes (mkFragment b0 h rest)).
    rewrite depacketizeFUA_fragment.
    match goal with
    | |- exists d' out, Ok ?x = _ =>
        exists (fst x), (snd x); destruct x; reflexivity
    end.
Qed.

Lemma Depacketize_returns (d : H264Depacketizer) (s : Z)
    (payload : list byte) :
  exists d' out, Depacketize d s payload = Ok (d', out).
Proof.
  destruct (isFUA payload) eqn:E.
  - destruct payload as [|b0 rest]; [discriminate|].
    cbn [isFUA] in E. apply Z.eqb_eq in E.
    rewrite Depacketize_fua by exact E. apply depacketizeFUA_returns.
  - destruct (Depacketize_not_fua d s payload E) as [out H]. eauto.
Qed.

(** A FU-A packet without start flag that meets an idle instance is dropped
    and changes nothing. *)
Lemma Depacketize_orphan (d : H264Depacketizer) (s : Z)
    (payload : list byte) :
  fuaStarted d = false ->
  isFUA payload = true ->
  isFUAStart payload = false ->
  Depacketize d s payload = Ok (d, []).
Proof.
  intros Hidle Hfua Hns.
  destruct payload as [|b0 rest]; [discriminate|].
  cbn [isFUA] in Hfua. pose proof Hfua as Ht. apply Z.eqb_eq in Ht.
  rewrite Depacketize_fua by exact Ht.
  destruct rest as [|h rest]; [reflexivity|].
  cbn [isFUAStart] in Hns. rewrite Hfua in Hns. cbn [andb] in Hns.
  change (b0 :: h :: rest) with (bytes (mkFragment b0 h rest)).
  rewrite depacketizeFUA_fragment. cbn [header].
  rewrite Hns, Hidle. reflexivity.
Qed.

(** ** Sequences of calls *)

Lemma feed_cons (d d' : H264Depacketizer) (s : Z) (payload : list byte)
    (out : nalus) (rest : list (Z * list byte)) :
  Depacketize d s payload = Ok (d', out) ->
  feed d ((s, payload) :: rest) =
  (r <- feed d' rest ;; Ok (fst r, out :: snd r)).
Proof. intros H. cbn [feed]. rewrite H. reflexivity. Qed.

(** While no start fragment arrives, an idle instance stays as it is and
    gives no unit for any FU-A packet. *)
Lemma feed_idle (d : H264Depacketizer) (pkts : list (Z * list byte)) :
  fuaStarted d = false ->
  Forall (fun p => isFUAStart (snd p) = false) pkts ->
  exists outs, feed d pkts = Ok (d, outs) /\ fua_silent pkts outs.
Proof.
  intros Hidle Hns. induction Hns as [|[s payload] pkts Hp _ IH].
  - exists []. split; [reflexivity | constructor].
  - destruct IH as [outs [Hrun Hsilent]]. cbn [snd] in Hp.
    destruct (isFUA payload) eqn:E.
    + rewrite (@feed_cons _ _ _ _ _ pkts
                 (Depacketize_orphan d s payload Hidle E Hp)).
      rewrite Hrun. exists ([] :: outs). split; [reflexivity|].
      constructor; [reflexivity | exact Hsilent].
    + destruct (Depacketize_not_fua d s payload E) as [out Hout].
      rewrite (@feed_cons _ _ _ _ _ pkts Hout), Hrun.
      exists (out :: outs). split; [reflexivity|].
      constructor; [cbn [snd]; congruence | exact Hsilent].
Qed.

Lemma isMiddle_inv (f : fragment) :
  isMiddle f = true ->
  nalType (indicator f) = 28 /\ startFlag (header f) = false
  /\ endFlag (header f) = false.
Proof.
  unfold isMiddle. rewrite !andb_true_iff, !negb_true_iff, Z.eqb_eq. tauto.
Qed.

Lemma isFinal_inv (f : fragment) :
  isFinal f = true ->
  nalType (indicator f) = 28 /\ startFlag (header f) = false
  /\ endFlag (header f) = true.
Proof.
  unfold isFinal. rewrite !andb_true_iff, !negb_true_iff, Z.eqb_eq. tauto.
Qed.

Lemma isFirst_inv (f : fragment) :
  isFirst f = true ->
  nalType (indicator f) = 28 /\ startFlag (header f) = true
  /\ endFlag (header f) = false.
Proof.
  unfold isFirst. rewrite !andb_true_iff, !negb_true_iff, Z.eqb_eq. tauto.
Qed.

Lemma isWhole_inv (f : fragment) :
  isWhole f = true ->
  nalType (indicator f) = 28 /\ startFlag (header f) = true
  /\ endFlag (header f) = true.
Proof.
  unfold isWhole. rewrite !andb_true_iff, Z.eqb_eq. tauto.
Qed.

Lemma Depacketize_fragment (d : H264Depacketizer) (s : Z) (f : fragment) :
  nalType (indicator f) = 28 ->
  Depacketize d s (bytes f) = depacketizeFUA d s (bytes f).
Proof. intros H. unfold bytes. apply Depacketize_fua. exact H. Qed.

(** The fragments after the first, fed in sequence to an instance that
    expects the first of them: nothing until the last, then the buffer with
    all their data. *)
Lemma feed_continues (fs : list fragment) :
  forall (d : H264Depacketizer) (s : Z),
    continues fs = true ->
    fuaStarted d = true ->
    expectedSeq d = s ->
    exists d',
      feed d (numbered s fs)
      = Ok (d', repeat [] (length fs - 1)
                  ++ [[fuaBuf d ++ concat (map data fs)]])
      /\ fuaBuf d' = [] /\ fuaStarted d' = false.
Proof.
  induction fs as [|f rest IH]; intros d s Hc Hst Hseq; [discriminate|].
  destruct rest as [|g rest].
  - cbn [continues] in Hc. apply isFinal_inv in Hc.
    destruct Hc as [Ht [Hs He]].
    cbn [numbered feed]. rewrite Depacketize_fragment by exact Ht.
    rewrite depacketizeFUA_fragment, Hs, He, Hst, Hseq, Z.eqb_refl.
    cbn. rewrite app_nil_r. eauto.
  - change (continues (f :: g :: rest))
      with (isMiddle f && continues (g :: rest)) in Hc.
    apply andb_true_iff in Hc. destruct Hc as [Hm Hc].
    apply isMiddle_inv in Hm. destruct Hm as [Ht [Hs He]].
    set (d1 := mkDepacketizer (fuaBuf d ++ data f) true (uint16_succ s)).
    assert (Hstep : Depacketize d s (bytes f) = Ok (d1, [])).
    { rewrite Depacketize_fragment by exact Ht.
      rewrite depacketizeFUA_fragment, Hs, He, Hst, Hseq, Z.eqb_refl.
      reflexivity. }
    destruct (IH d1 (uint16_succ s) Hc eq_refl eq_refl)
      as [d' [Hrun [Hbuf Hidle]]].
    exists d'. split; [|split; assumption].
    change (numbered s (f :: g :: rest))
      with ((s, bytes f) :: numbered (uint16_succ s) (g :: rest)).
    rewrite (@feed_cons _ _ _ _ _ _ Hstep), Hrun. cbn [bind fst snd].
    replace (length (f :: g :: rest) - 1)%nat
      with (S (length (g :: rest) - 1)) by (cbn [List.length]; lia).
    subst d1. cbn [fuaBuf reassembled repeat app map concat].
    rewrite <- ?app_assoc. reflexivity.
Qed.

(** A whole chain, fed to an instance in any state. *)
Lemma feed_chain (d : H264Depacketizer) (s : Z) (fs : list fragment) :
  isChain fs = true ->
  exists d',
    feed d (numbered s fs)
    = Ok (d', repeat [] (length fs - 1) ++ [[reassembled fs]])
    /\ fuaBuf d' = [] /\ fuaStarted d' = false.
Proof.
  destruct fs as [|f [|g rest]]; intros Hc; [discriminate | |].
  - cbn [isChain] in Hc. apply isWhole_inv in Hc.
    destruct Hc as [Ht [Hs He]].
    cbn [numbered feed]. rewrite Depacketize_fragment by exact Ht.
    rewrite depacketizeFUA_fragment, Hs, He.
    cbn. rewrite app_nil_r. eauto.
  - change (isChain (f :: g :: rest))
      with (isFirst f && continues (g :: rest)) in Hc.
    apply andb_true_iff in Hc. destruct Hc as [Hf Hc].
    apply isFirst_inv in Hf. destruct Hf as [Ht [Hs He]].
    set (d1 := mkDepacketizer (nalHeader (indicator f) (header f) :: data f)
                 true (uint16_succ s)).
    assert (Hstep : Depacketize d s (bytes f) = Ok (d1, [])).
    { rewrite Depacketize_fragment by exact Ht.
      rewrite depacketizeFUA_fragment, Hs, He. reflexivity. }
    destruct (@feed_continues (g :: rest) d1 (uint16_succ s) Hc eq_refl
                eq_refl) as [d' [Hrun [Hbuf Hidle]]].
    exists d'. split; [|split; assumption].
    change (numbered s (f :: g :: rest))
      with ((s, bytes f) :: numbered (uint16_succ s) (g :: rest)).
    rewrite (@feed_cons _ _ _ _ _ _ Hstep), Hrun. cbn [bind fst snd].
    replace (length (f :: g :: rest) - 1)%nat
      with (S (length (g :: rest) - 1)) by (cbn [List.length]; lia).
    subst d1. cbn [fuaBuf reassembled repeat app map concat].
    rewrite <- ?app_assoc. reflexivity.
Qed.

(** ** The depacketizer: the stated properties *)

(** The depacketizer with sequence numbers, on a gap: with a FU-A
    reassembly in progress, a fragment without start flag
    whose sequence number is not the expected one makes [Depacketize] drop
    the buffer and the started flag and return no unit; after that, as long
    as no start fragment arrives, every FU-A packet gives no unit and the
    instance stays idle with an empty buffer. *)
Theorem gap_discards_reassembly :
  forall (d : H264Depacketizer) (s : Z) (f : fragment),
    fuaStarted d = true ->
    nalType (indicator f) = 28 ->
    startFlag (header f) = false ->
    s <> expectedSeq d ->
    exists d',
      Depacketize d s (bytes f) = Ok (d', [])
      /\ fuaBuf d' = [] /\ fuaStarted d' = false
      /\ forall pkts,
           Forall (fun p => isFUAStart (snd p) = false) pkts ->
           exists d'' outs,
             feed d' pkts = Ok (d'', outs) /\ fua_silent pkts outs
             /\ fuaBuf d'' = [] /\ fuaStarted d'' = false.
Proof.
  intros d s f Hst Ht Hs Hgap.
  exists (mkDepacketizer [] false (expectedSeq d)).
  split; [|split; [reflexivity | split; [reflexivity |]]].
  - rewrite Depacketize_fragment by exact Ht.
    rewrite depacketizeFUA_fragment, Hs, Hst.
    apply Z.eqb_neq in Hgap. rewrite Hgap. reflexivity.
  - intros pkts Hns.
    destruct (@feed_idle (mkDepacketizer [] false (expectedSeq d)) pkts
                eq_refl Hns) as [outs [Hrun Hsilent]].
    exists (mkDepacketizer [] false (expectedSeq d)), outs. auto.
Qed.

Lemma gap_discards_reassembly_witness :
  exists d',
    Depacketize (mkDepacketizer [x65; x01; x02] true 101) 102
      (bytes (mkFragment x7c x45 [x05; x06])) = Ok (d', [])
    /\ fuaBuf d' = [] /\ fuaStarted d' = false
    /\ forall pkts,
         Forall (fun p => isFUAStart (snd p) = false) pkts ->
         exists d'' outs,
           feed d' pkts = Ok (d'', outs) /\ fua_silent pkts outs
           /\ fuaBuf d'' = [] /\ fuaStarted d'' = false.
Proof.
  apply gap_discards_reassembly;
    [reflexivity | reflexivity | reflexivity | cbn; lia].
Defined.

(** The depacketizer with sequence numbers, on an orphan: with no
    reassembly in progress, a FU-A packet without start flag
    gives no unit and leaves the instance exactly as it was; a chain that
    starts afterwards on the same instance is reassembled as if the orphan
    had never come. *)
Theorem orphan_fragment_dropped :
  forall (d : H264Depacketizer) (s : Z) (payload : list byte),
    fuaStarted d = false ->
    isFUA payload = true ->
    isFUAStart payload = false ->
    Depacketize d s payload = Ok (d, [])
    /\ forall (s' : Z) (fs : list fragment),
         isChain fs = true ->
         exists d',
           feed d ((s, payload) :: numbered s' fs)
           = Ok (d', [] :: repeat [] (length fs - 1) ++ [[reassembled fs]])
           /\ fuaBuf d' = [] /\ fuaStarted d' = false.
Proof.
  intros d s payload Hidle Hfua Hns.
  pose proof (Depacketize_orphan d s payload Hidle Hfua Hns) as Hdrop.
  split; [exact Hdrop|].
  intros s' fs Hc.
  destruct (feed_chain d s' fs Hc) as [d' [Hrun [Hbuf Hst]]].
  exists d'. split; [|split; assumption].
  rewrite (@feed_cons _ _ _ _ _ _ Hdrop), Hrun. reflexivity.
Qed.

Lemma orphan_fragment_dropped_witness :
  Depacketize NewH264Depacketizer 101 [x7c; x45; x03; x04]
  = Ok (NewH264Depacketizer, [])
  /\ forall (s' : Z) (fs : list fragment),
       isChain fs = true ->
       exists d',
         feed NewH264Depacketizer
           ((101, [x7c; x45; x03; x04]) :: numbered s' fs)
         = Ok (d', [] :: repeat [] (length fs - 1) ++ [[reassembled fs]])
         /\ fuaBuf d' = [] /\ fuaStarted d' = false.
Proof.
  apply orphan_fragment_dropped; reflexivity.
Defined.

(** The depacketizer with sequence numbers, on STAP-A: on a payload of
    type 24, [Depacketize] returns, without fault and
    without touching the reassembly state, exactly the units the
    specification describes for the bytes after the header: two-byte
    big-endian sizes each followed by that many bytes, up to the first size
    that is zero or larger than what remains. *)
Theorem stapa_units_in_order :
  forall (d : H264Depacketizer) (s : Z) (b0 : byte) (rest : list byte),
    nalType b0 = 24 ->
    exists us,
      Depacketize d s (b0 :: rest) = Ok (d, us)
      /\ stapa_units rest us
      /\ forall us', stapa_units rest us' -> us' = us.
Proof.
  intros d s b0 rest Ht.
  destruct (depacketizeSTAPA_units d b0 rest) as [us [Hrun Hus]].
  exists us. split; [|split; [exact Hus |]].
  - rewrite Depacketize_cons, Ht. exact Hrun.
  - intros us' Hus'. exact (stapa_units_functional Hus' Hus).
Qed.

Lemma stapa_units_in_order_witness :
  exists us,
    Depacketize NewH264Depacketizer 7
      (x18 :: [x00; x02; x67; xaa; x00; x00; x68])
    = Ok (NewH264Depacketizer, us)
    /\ stapa_units [x00; x02; x67; xaa; x00; x00; x68] us
    /\ forall us',
         stapa_units [x00; x02; x67; xaa; x00; x00; x68] us' -> us' = us.
Proof.
  apply stapa_units_in_order. reflexivity.
Defined.

(** C5. A FU-A chain (a start fragment, then consecutively numbered
    fragments without start flag, the last of which and no other carries the
    end flag; or a single fragment with both flags), fed to an instance in
    any state, gives no unit for every fragment but the last and for the
    last exactly one unit: the header byte rebuilt from the top three bits
    of the FU indicator and the type in the FU header of the start fragment,
    followed by the data of all fragments from byte 2 on; the instance is
    left idle with an empty buffer. *)
Theorem fua_chain_reassembled :
  forall (d : H264Depacketizer) (s : Z) (fs : list fragment),
    isChain fs = true ->
    exists d',
      feed d (numbered s fs)
      = Ok (d', repeat [] (length fs - 1) ++ [[reassembled fs]])
      /\ fuaBuf d' = [] /\ fuaStarted d' = false.
Proof. exact feed_chain. Qed.

Lemma fua_chain_reassembled_witness :
  exists d',
    feed NewH264Depacketizer
      (numbered 65535
         [mkFragment x7c x85 [x01; x02]; mkFragment x7c x05 [x03; x04];
          mkFragment x7c x45 [x05; x06]])
    = Ok (d', repeat [] 2 ++ [[[x65; x01; x02; x03; x04; x05; x06]]])
    /\ fuaBuf d' = [] /\ fuaStarted d' = false.
Proof.
  apply (@fua_chain_reassembled NewH264Depacketizer 65535
           [mkFragment x7c x85 [x01; x02]; mkFragment x7c x05 [x03; x04];
            mkFragment x7c x45 [x05; x06]]).
  reflexivity.
Defined.

(** C7. [Depacketize] returns on every input, and never faults: an empty
    payload, a payload whose type is none of 1..23, 24, 28, and a FU-A
    payload shorter than two bytes each give an empty result and leave the
    instance as it was. *)
Theorem Depacketize_never_faults :
  forall (d : H264Depacketizer) (s : Z) (payload : list byte),
    (exists d' out, Depacketize d s payload = Ok (d', out))
    /\ (payload = [] -> Depacketize d s payload = Ok (d, []))
    /\ (forall b0 rest,
          payload = b0 :: rest ->
          ~ (1 <= nalType b0 <= 23) -> nalType b0 <> 24 -> nalType b0 <> 28 ->
          Depacketize d s payload = Ok (d, []))
    /\ (forall b0,
          payload = [b0] -> nalType b0 = 28 ->
          Depacketize d s payload = Ok (d, [])).
Proof.
  intros d s payload. split; [apply Depacketize_returns|].
  split; [intros ->; reflexivity|]. split.
  - intros b0 rest -> H1 H2 H3. rewrite Depacketize_cons.
    replace ((1 <=? nalType b0) && (nalType b0 <=? 23)) with false.
    2:{ symmetry. apply andb_false_iff.
        destruct (Z.leb_spec 1 (nalType b0)); [|auto].
        destruct (Z.leb_spec (nalType b0) 23); [lia | auto]. }
    apply Z.eqb_neq in H2, H3. rewrite H2, H3. reflexivity.
  - intros b0 -> Ht. rewrite Depacketize_fua by exact Ht. reflexivity.
Qed.

Lemma Depacketize_never_faults_witness :
  (exists d' out,
     Depacketize (mkDepacketizer [x65] true 9) 9 [x7c] = Ok (d', out))
  /\ Depacketize (mkDepacketizer [x65] true 9) 9 [x7c]
     = Ok (mkDepacketizer [x65] true 9, []).
Proof.
  destruct (Depacketize_never_faults (mkDepacketizer [x65] true 9) 9 [x7c])
    as [Hret [_ [_ Hshort]]].
  split; [exact Hret | apply (Hshort x7c); reflexivity].
Defined.

(** C10. A payload that is empty or whose first byte has low five bits
    other than 28 leaves buffer, started flag and expected sequence number
    as they were, so that the calls after it behave as if it had not come:
    a reassembly in progress survives it. *)
Theorem non_fua_keeps_reassembly_state :
  forall (d : H264Depacketizer) (s : Z) (payload : list byte),
    isFUA payload = false ->
    exists out,
      Depacketize d s payload = Ok (d, out)
      /\ forall pkts,
           feed d ((s, payload) :: pkts)
           = (r <- feed d pkts ;; Ok (fst r, out :: snd r)).
Proof.
  intros d s payload H.
  destruct (Depacketize_not_fua d s payload H) as [out Hout].
  exists out. split; [exact Hout|].
  intros pkts. apply feed_cons. exact Hout.
Qed.

Lemma non_fua_keeps_reassembly_state_witness :
  exists out,
    Depacketize (mkDepacketizer [x65; x01] true 101) 300 [x41; x9a]
    = Ok (mkDepacketizer [x65; x01] true 101, out)
    /\ forall pkts,
         feed (mkDepacketizer [x65; x01] true 101) ((300, [x41; x9a]) :: pkts)
         = (r <- feed (mkDepacketizer [x65; x01] true 101) pkts ;;
            Ok (fst r, out :: snd r)).
Proof.
  apply non_fua_keeps_reassembly_state. reflexivity.
Defined.

(** ** The peer: the remote-description gate *)

Section PeerFacts.
Import Domain Webrtc.
Context {engine : PionEngine}.

Lemma SetRemoteDescription_first (p : Peer) (sdp : SDPPayload) :
  remoteDescSet p = ChanOpen ->
  snd (pcSetRemoteDescription (pc p) (SDP sdp)) = None ->
  exists p',
    SetRemoteDescription p sdp = Ok (p', None)
    /\ remoteDescSet p' = ChanClosed
    /\ calls p' = calls p ++ [ESetRemoteDescription (SDP sdp) None].
Proof.
  intros Hopen Hacc. unfold SetRemoteDescription.
  destruct (pcSetRemoteDescription (pc p) (SDP sdp)) as [pc1 err].
  cbn [snd] in Hacc. subst err. rewrite Hopen. eauto.
Qed.

Lemma SetRemoteDescription_rejected (p : Peer) (sdp : SDPPayload)
    (err : string) :
  snd (pcSetRemoteDescription (pc p) (SDP sdp)) = Some err ->
  exists p',
    SetRemoteDescription p sdp
    = Ok (p', Some ("set remote description: " ++ err)%string)
    /\ remoteDescSet p' = remoteDescSet p.
Proof.
  intros Hrej. unfold SetRemoteDescription.
  destruct (pcSetRemoteDescription (pc p) (SDP sdp)) as [pc1 e].
  cbn [snd] in Hrej. subst e. eauto.
Qed.

(** C2. Once the gate is released, a further [SetRemoteDescription] that the
    engine accepts closes the closed channel again: the call ends in the
    panic of Go, it is not returned as an error. *)
Theorem SetRemoteDescription_again_panics :
  forall (p : Peer) (sdp : SDPPayload),
    remoteDescSet p = ChanClosed ->
    snd (pcSetRemoteDescription (pc p) (SDP sdp)) = None ->
    SetRemoteDescription p sdp = Panic CloseOfClosedChannel.
Proof.
  intros p sdp Hclosed Hacc. unfold SetRemoteDescription.
  destruct (pcSetRemoteDescription (pc p) (SDP sdp)) as [pc1 err].
  cbn [snd] in Hacc. subst err. rewrite Hclosed. reflexivity.
Qed.

End PeerFacts.

Lemma SetRemoteDescription_again_panics_witness :
  @Webrtc.SetRemoteDescription Standin.engine
    (@Webrtc.mkPeer Standin.engine "v=0"%string Webrtc.ChanClosed
       [Webrtc.ESetRemoteDescription "v=0" None])
    Standin.anAnswer
  = Panic CloseOfClosedChannel.
Proof.
  apply (@SetRemoteDescription_again_panics Standin.engine); reflexivity.
Defined.

(** The same on a session: offer, answer, offer, answer. The second answer
    ends the process. *)
Example second_answer_ends_the_process :
  Viewer.exec (Standin.aViewer "v=0")
    [Viewer.Handled Signal.OnPeerIn;
     Viewer.Handled (Signal.OnSDPAnswer Standin.anAnswer);
     Viewer.Handled Signal.OnPeerIn]
  <> None
  /\ (forall v,
        Viewer.exec (Standin.aViewer "v=0")
          [Viewer.Handled Signal.OnPeerIn;
           Viewer.Handled (Signal.OnSDPAnswer Standin.anAnswer);
           Viewer.Handled Signal.OnPeerIn] = Some v ->
        Viewer.handle (Signal.OnSDPAnswer Standin.anAnswer) v
        = Panic CloseOfClosedChannel).
Proof.
  split; [vm_compute; discriminate|].
  intros v H. vm_compute in H. injection H as <-. reflexivity.
Qed.

(** The client closes its own channel behind a check: a second [Close] does
    nothing. *)
Lemma Close_idempotent {transport : Signal.Transport} (c : Signal.Client) :
  Signal.Close (Signal.Close c) = Signal.Close c.
Proof.
  unfold Signal.Close. destruct (Signal.closed c) eqn:E.
  - cbn. reflexivity.
  - rewrite E. reflexivity.
Qed.

(** ** The record of engine calls *)

Section CallRecord.
Import Webrtc.

Lemma description_accepted_app (cs cs' : list engine_call) :
  description_accepted (cs ++ cs')
  = description_accepted cs || description_accepted cs'.
Proof. apply existsb_app. Qed.

Lemma candidates_applied_app (cs cs' : list engine_call) :
  candidates_applied (cs ++ cs')
  = candidates_applied cs ++ candidates_applied cs'.
Proof.
  induction cs as [|c cs IH]; [reflexivity|].
  destruct c; cbn [app candidates_applied]; rewrite IH; reflexivity.
Qed.

(** Adding one call at the end keeps the order if the call is not a
    candidate, or if a description was accepted before it. *)
Lemma candidates_follow_description_snoc (cs : list engine_call) :
  forall (seen : bool) (c : engine_call),
    candidates_follow_description seen (cs ++ [c])
    = candidates_follow_description seen cs
      && match c with
         | EAddICECandidate _ _ => seen || description_accepted cs
         | _ => true
         end.
Proof.
  induction cs as [|c0 cs IH]; intros seen c.
  - destruct c as [| |sdp [e|]|init e]; cbn;
      rewrite ?orb_false_r, ?andb_true_r; reflexivity.
  - destruct c0 as [| |sdp [e|]|init e];
      cbn [app candidates_follow_description description_accepted existsb];
      fold (description_accepted cs); rewrite IH; cbn [orb].
    + reflexivity.
    + reflexivity.
    + reflexivity.
    + destruct c; rewrite ?orb_true_r; reflexivity.
    + rewrite andb_assoc. reflexivity.
Qed.

Lemma remove_nth_Permutation (A : Type) (l : list A) :
  forall (i : nat) (a : A),
    nth_error l i = Some a ->
    Permutation l (a :: Viewer.remove_nth i l).
Proof.
  induction l as [|b l IH]; intros [|i] a H; try discriminate.
  - cbn in H. injection H as ->. reflexivity.
  - cbn in H. cbn [Viewer.remove_nth].
    rewrite perm_swap. constructor. apply IH. exact H.
Qed.

End CallRecord.

(** ** The session: candidates wait for the remote description *)

Section SessionFacts.
Import Domain Webrtc Signal Viewer.
Context {engine : PionEngine} {transport : Transport}.

Lemma gate_invariant_NewPeer (pc0 : PeerConnection) :
  gate_invariant (NewPeer pc0).
Proof. split; reflexivity. Qed.

Lemma CreateOffer_gate (p : Peer) :
  gate_invariant p ->
  gate_invariant (fst (CreateOffer p))
  /\ candidates_applied (calls (fst (CreateOffer p)))
     = candidates_applied (calls p).
Proof.
  intros [Hgate Hord]. unfold CreateOffer.
  destruct (pcCreateOffer (pc p)) as [pc1 [sdp | err]].
  - destruct (pcSetLocalDescription pc1 sdp) as [pc2 [err|]];
      cbn [fst]; (split; [split|]); cbn [remoteDescSet calls];
      change [ECreateOffer; ESetLocalDescription sdp]
        with ([ECreateOffer] ++ [ESetLocalDescription sdp]);
      rewrite ?app_assoc, ?description_accepted_app,
        ?candidates_follow_description_snoc, ?candidates_applied_app;
      cbn; rewrite ?orb_false_r, ?andb_true_r, ?app_nil_r; auto.
  - cbn [fst]. split; [split|]; cbn [remoteDescSet calls];
      rewrite ?description_accepted_app,
        ?candidates_follow_description_snoc, ?candidates_applied_app;
      cbn; rewrite ?orb_false_r, ?andb_true_r, ?app_nil_r; auto.
Qed.

Lemma SetRemoteDescription_gate (p p' : Peer) (sdp : SDPPayload)
    (err : option string) :
  gate_invariant p ->
  SetRemoteDescription p sdp = Ok (p', err) ->
  gate_invariant p'
  /\ candidates_applied (calls p') = candidates_applied (calls p).
Proof.
  intros [Hgate Hord]. unfold SetRemoteDescription.
  destruct (pcSetRemoteDescription (pc p) (SDP sdp)) as [pc1 [e|]].
  - intros H. injection H as <- <-. split; [split|]; cbn [remoteDescSet calls];
      rewrite ?description_accepted_app,
        ?candidates_follow_description_snoc, ?candidates_applied_app;
      cbn; rewrite ?orb_false_r, ?andb_true_r, ?app_nil_r; auto.
  - destruct (remoteDescSet p); [|discriminate].
    intros H. injection H as <- <-. split; [split|]; cbn [remoteDescSet calls];
      rewrite ?description_accepted_app,
        ?candidates_follow_description_snoc, ?candidates_applied_app;
      cbn; rewrite ?orb_true_r, ?andb_true_r, ?app_nil_r; auto.
Qed.

Lemma AddRemoteICECandidate_blocked (p : Peer) (c : ICECandidatePayload) :
  remoteDescSet p = ChanOpen ->
  AddRemoteICECandidate p c = Blocked _.
Proof. intros H. unfold AddRemoteICECandidate. rewrite H. reflexivity. Qed.

Lemma AddRemoteICECandidate_released (p : Peer) (c : ICECandidatePayload) :
  remoteDescSet p = ChanClosed ->
  exists p' err,
    AddRemoteICECandidate p c = Returned (p', err)
    /\ remoteDescSet p' = ChanClosed
    /\ exists reply,
         calls p' = calls p ++ [EAddICECandidate (candidateInit c) reply].
Proof.
  intros H. unfold AddRemoteICECandidate. rewrite H.
  destruct (pcAddICECandidate (pc p) (candidateInit c)) as [pc1 [e|]];
    eexists _, _; (split; [reflexivity|]); cbn [remoteDescSet calls]; eauto.
Qed.

Lemma AddRemoteICECandidate_gate (p p' : Peer) (c : ICECandidatePayload)
    (err : option string) :
  gate_invariant p ->
  AddRemoteICECandidate p c = Returned (p', err) ->
  gate_invariant p'
  /\ candidates_applied (calls p')
     = candidates_applied (calls p) ++ [candidateInit c].
Proof.
  intros [Hgate Hord] H.
  destruct (remoteDescSet p) eqn:E.
  - rewrite AddRemoteICECandidate_blocked in H by exact E. discriminate.
  - destruct (AddRemoteICECandidate_released p c E)
      as [q [e [Hq [Hclosed [reply Hcalls]]]]].
    rewrite Hq in H. injection H as <- <-.
    assert (Hacc : description_accepted (calls p) = true).
    { destruct (description_accepted (calls p)); [reflexivity | discriminate]. }
    split; [split|]; rewrite Hcalls.
    + rewrite Hclosed, description_accepted_app, Hacc. reflexivity.
    + rewrite candidates_follow_description_snoc, Hord, Hacc. reflexivity.
    + rewrite candidates_applied_app. reflexivity.
Qed.

(** One event keeps the invariant, and accounts for every candidate: what
    was applied or waiting before, and what the event delivered, is what is
    applied or waiting after. *)
Lemma perform_invariant (v v' : Viewer) (ev : event) :
  gate_invariant (peer v) ->
  perform v ev = Some v' ->
  gate_invariant (peer v')
  /\ Permutation
       (candidates_applied (calls (peer v))
        ++ map candidateInit (spawned v)
        ++ map candidateInit (candidates_received [ev]))
       (candidates_applied (calls (peer v'))
        ++ map candidateInit (spawned v')).
Proof.
  intros Hinv H. destruct ev as [call | i]; cbn [perform] in H.
  - destruct call as [| | |sdp|c]; cbn [handle] in H.
    + injection H as <-. cbn. rewrite app_nil_r. auto.
    + unfold OnPeerIn in H.
      pose proof (CreateOffer_gate Hinv) as [Hinv' Happ].
      destruct (CreateOffer (peer v)) as [p' [sdp|err]]; [|discriminate].
      injection H as <-. cbn [fst] in *. cbn. rewrite app_nil_r, Happ. auto.
    + injection H as <-. cbn. rewrite app_nil_r. auto.
    + unfold OnSDPAnswer in H.
      destruct (SetRemoteDescription (peer v) sdp) as [[p' err]| | |] eqn:E;
        try discriminate.
      cbn in H. injection H as <-.
      eapply SetRemoteDescription_gate in E; [|exact Hinv].
      destruct E as [Hinv' Happ].
      cbn. rewrite app_nil_r, Happ. auto.
    + injection H as <-. cbn [peer spawned candidates_received map].
      rewrite map_app. cbn [map]. auto.
  - destruct (nth_error (spawned v) i) as [c|] eqn:Hi; [|discriminate].
    destruct (AddRemoteICECandidate (peer v) c) as [|[p' err]] eqn:E;
      [discriminate|].
    injection H as <-.
    eapply AddRemoteICECandidate_gate in E; [|exact Hinv].
    destruct E as [Hinv' Happ].
    cbn [peer spawned candidates_received map]. rewrite app_nil_r, Happ.
    split; [exact Hinv'|].
    rewrite <- app_assoc. apply Permutation_app_head. cbn [app].
    change (candidateInit c :: map candidateInit (remove_nth i (spawned v)))
      with (map candidateInit (c :: remove_nth i (spawned v))).
    apply Permutation_map. apply remove_nth_Permutation. exact Hi.
Qed.

Lemma exec_invariant (evs : list event) :
  forall (v v' : Viewer),
    gate_invariant (peer v) ->
    exec v evs = Some v' ->
    gate_invariant (peer v')
    /\ Permutation
         (candidates_applied (calls (peer v))
          ++ map candidateInit (spawned v)
          ++ map candidateInit (candidates_received evs))
         (candidates_applied (calls (peer v'))
          ++ map candidateInit (spawned v')).
Proof.
  induction evs as [|ev evs IH]; intros v v' Hinv H.
  - injection H as <-. cbn. rewrite app_nil_r. auto.
  - cbn [exec] in H. destruct (perform v ev) as [v1|] eqn:E; [|discriminate].
    eapply perform_invariant in E; [|exact Hinv].
    destruct E as [Hinv1 Hperm1].
    destruct (IH v1 v' Hinv1 H) as [Hinv' Hperm'].
    split; [exact Hinv'|].
    etransitivity; [|exact Hperm'].
    replace (candidates_received (ev :: evs))
      with (candidates_received [ev] ++ candidates_received evs)
      by (destruct ev as [[| | | |]|]; reflexivity).
    rewrite map_app, !app_assoc. apply Permutation_app_tail.
    rewrite <- app_assoc. exact Hperm1.
Qed.

(** C6. In every run of a session from its start: the engine is handed a
    candidate only after it has accepted a remote description; while the
    channel is open (no description accepted yet) no goroutine gets past
    [AddRemoteICECandidate]; once it is closed every waiting goroutine can
    go on and hands its candidate to the engine; and every candidate that
    [OnRemoteICECandidate] received is either handed to the engine or still
    waiting. *)
Theorem candidates_wait_for_remote_description :
  forall (pc0 : PeerConnection) (s : Client) (evs : list event) (v : Viewer),
    exec (New (NewPeer pc0) s) evs = Some v ->
    candidates_follow_description false (calls (peer v)) = true
    /\ (remoteDescSet (peer v) = ChanOpen ->
        description_accepted (calls (peer v)) = false
        /\ candidates_applied (calls (peer v)) = []
        /\ forall i, perform v (Proceeds i) = None)
    /\ (remoteDescSet (peer v) = ChanClosed ->
        description_accepted (calls (peer v)) = true
        /\ forall i c,
             nth_error (spawned v) i = Some c ->
             exists v' reply,
               perform v (Proceeds i) = Some v'
               /\ calls (peer v')
                  = calls (peer v)
                    ++ [EAddICECandidate (candidateInit c) reply])
    /\ Permutation (map candidateInit (candidates_received evs))
         (candidates_applied (calls (peer v))
          ++ map candidateInit (spawned v)).
Proof.
  intros pc0 s evs v H.
  destruct (@exec_invariant evs (New (NewPeer pc0) s) v
              (gate_invariant_NewPeer pc0) H) as [[Hgate Hord] Hperm].
  split; [exact Hord|]. split; [|split; [|exact Hperm]].
  - intros Hopen.
    assert (Hacc : description_accepted (calls (peer v)) = false).
    { rewrite Hopen in Hgate.
      destruct (description_accepted (calls (peer v)));
        [discriminate | reflexivity]. }
    split; [exact Hacc|]. split.
    + clear - Hord Hacc. revert Hord Hacc.
      induction (calls (peer v)) as [|c cs IH]; [reflexivity|].
      destruct c as [| |sdp [e|]|init e]; cbn; auto; discriminate.
    + intros i. cbn [perform].
      destruct (nth_error (spawned v) i); [|reflexivity].
      rewrite AddRemoteICECandidate_blocked by exact Hopen. reflexivity.
  - intros Hclosed. split.
    + rewrite Hclosed in Hgate.
      destruct (description_accepted (calls (peer v)));
        [reflexivity | discriminate].
    + intros i c Hi. cbn [perform]. rewrite Hi.
      destruct (AddRemoteICECandidate_released (peer v) c Hclosed)
        as [p' [err [Hq [_ [reply Hcalls]]]]].
      rewrite Hq. eexists _, reply. split; [reflexivity | exact Hcalls].
Qed.

End SessionFacts.

Lemma candidates_wait_for_remote_description_witness :
  Webrtc.candidates_follow_description false
    (Webrtc.calls (Viewer.peer Standin.afterRun)) = true
  /\ Webrtc.candidates_applied (Webrtc.calls (Viewer.peer Standin.afterRun))
     = [Webrtc.candidateInit Standin.aCandidate]
  /\ Viewer.spawned Standin.afterRun = [].
Proof.
  destruct (@candidates_wait_for_remote_description Standin.engine
              Standin.transport "v=0"%string Standin.aClient Standin.aRun
              Standin.afterRun) as [Hord _].
  - vm_compute. reflexivity.
  - split; [exact Hord | split; reflexivity].
Defined.

(** ** The signaling client: dropped frames *)

Section DispatchFacts.
Import Domain Webrtc Signal.
Context {transport : Transport}.

Lemma dropped_dispatch (data : string) (msg : message) :
  dropped data = true ->
  json_Unmarshal_message data = Value msg ->
  dispatch msg = [].
Proof.
  unfold dropped. intros Hd E. rewrite E in Hd.
  unfold mem, dispatched_methods, dispatched_message_types in Hd.
  cbn [existsb] in Hd. unfold dispatch.
  destruct (String.eqb_spec (mMethod msg) "AUTH_RESPONSE") as [E1|E1];
    [rewrite E1 in Hd; cbn in Hd; discriminate|].
  destruct (String.eqb_spec (mMethod msg) "JOIN_LIVE_RESPONSE") as [E2|E2];
    [reflexivity|].
  destruct (String.eqb_spec (mMethod msg) "PEER_IN") as [E3|E3];
    [rewrite E3 in Hd; cbn in Hd; discriminate|].
  destruct (String.eqb_spec (mMethod msg) "PEER_OUT") as [E4|E4];
    [rewrite E4 in Hd; cbn in Hd; discriminate|].
  destruct (String.eqb_spec (mMethod msg) "TRANSMIT") as [E5|E5].
  - cbn [orb negb] in Hd.
    destruct (String.eqb_spec (mMessageType msg) "SDP_ANSWER") as [T1|T1].
    + cbn [orb negb] in Hd.
      destruct (base64_DecodeString (mMessagePayload msg)); [|reflexivity].
      destruct (json_Unmarshal_SDPPayload a); [discriminate | reflexivity].
    + destruct (String.eqb_spec (mMessageType msg) "ICE_CANDIDATE")
        as [T2|T2]; [|reflexivity].
      cbn [orb negb] in Hd.
      destruct (base64_DecodeString (mMessagePayload msg)); [|reflexivity].
      destruct (json_Unmarshal_ICECandidatePayload a);
        [discriminate | reflexivity].
  - destruct ((mMethod msg =? "TRANSMIT_RESPONSE")
              || (mMethod msg =? "RESPONSE"))%string; reflexivity.
Qed.

(** C8. A frame that is not JSON, or whose method is not a dispatched one,
    or that is a TRANSMIT with an unknown message type or with a payload
    that fails base64 or JSON decoding: [dispatch] calls no handler for it,
    and the read loop goes on with the frames after it, whatever the handler
    and its state. *)
Theorem dropped_frame_is_skipped :
  forall (data : string),
    dropped data = true ->
    (forall msg, json_Unmarshal_message data = Value msg -> dispatch msg = [])
    /\ forall (H : Type) (handle : callback -> H -> result H)
              (rest : list read) (h : H),
         readLoop handle (ReadFrame data :: rest) h = readLoop handle rest h.
Proof.
  intros data Hd. split.
  - intros msg E. exact (dropped_dispatch data Hd E).
  - intros H handle rest h. cbn [readLoop].
    destruct (json_Unmarshal_message data) as [msg|e] eqn:E; [|reflexivity].
    rewrite (dropped_dispatch data Hd E). reflexivity.
Qed.

End DispatchFacts.

Lemma dropped_frame_is_skipped_witness :
  (forall msg,
     @Signal.json_Unmarshal_message Standin.transport "PING" = Value msg ->
     @Signal.dispatch Standin.transport msg = [])
  /\ forall (H : Type) (handle : Signal.callback -> H -> result H)
            (rest : list Signal.read) (h : H),
       @Signal.readLoop Standin.transport H handle
         (Signal.ReadFrame "PING" :: rest) h
       = @Signal.readLoop Standin.transport H handle rest h.
Proof.
  apply (@dropped_frame_is_skipped Standin.transport "PING"%string).
  reflexivity.
Defined.

(** ** The viewer: peer-in *)

Section ViewerFacts.
Import Domain Webrtc Signal Viewer.
Context {engine : PionEngine} {transport : Transport}.

Lemma sendJSON_sent (c : Client) (msg : message) :
  sent (sendJSON c msg) = sent c ++ [msg].
Proof.
  unfold sendJSON. destruct (json_Marshal_message msg) as [data|e];
    [destruct (connWriteMessage (conn c) data)|]; reflexivity.
Qed.



End ViewerFacts.


(** ** The depacketizer without sequence numbers

    What the copy in internal/webrtc/depacketize.go shares with the one
    above, and where it differs. *)

Lemma unsequenced_stapaLoop_returns (fuel : nat) :
  forall (pre rest : list byte) (acc : nalus),
    (length rest <= fuel)%nat ->
    exists us, Unsequenced.stapaLoop fuel (pre ++ rest) (len pre) acc = Ok us.
Proof.
  induction fuel as [|fuel IH]; intros pre rest acc Hfuel.
  - destruct rest; [|cbn in Hfuel; lia].
    exists acc. cbn [Unsequenced.stapaLoop]. rewrite app_nil_r.
    replace (len pre + 2 <=? len pre) with false
      by (symmetry; apply Z.leb_gt; lia).
    reflexivity.
  - cbn [Unsequenced.stapaLoop].
    destruct rest as [|b1 [|b2 rest]].
    + exists acc. rewrite !app_nil_r.
      replace (len pre + 2 <=? len pre) with false
        by (symmetry; apply Z.leb_gt; lia).
      reflexivity.
    + exists acc. rewrite len_app, len_cons, len_nil.
      replace (len pre + 2 <=? len pre + (0 + 1)) with false
        by (symmetry; apply Z.leb_gt; lia).
      reflexivity.
    + pose proof (len_nonneg rest) as Hrest.
      pose proof (u8_range b1) as Hb1. pose proof (u8_range b2) as Hb2.
      assert (Hlen : len (pre ++ b1 :: b2 :: rest) = len pre + 2 + len rest)
        by (rewrite len_app, !len_cons; lia).
      rewrite Hlen.
      replace (len pre + 2 <=? len pre + 2 + len rest) with true
        by (symmetry; apply Z.leb_le; lia).
      rewrite index_app_r. cbn [bind].
      replace (pre ++ b1 :: b2 :: rest) with ((pre ++ [b1]) ++ b2 :: rest)
        by (rewrite <- app_assoc; reflexivity).
      replace (len pre + 1) with (len (pre ++ [b1]))
        by (rewrite len_app, len_cons, len_nil; lia).
      rewrite index_app_r. cbn [bind].
      rewrite lor_shiftl_be16.
      assert (Hpos : 0 <= be16 b1 b2) by (unfold be16; lia).
      destruct (Z.gtb_spec (len pre + 2 + be16 b1 b2)
                  (len pre + 2 + len rest)) as [Hover | Hfit]; [eauto|].
      replace ((pre ++ [b1]) ++ b2 :: rest) with ((pre ++ [b1; b2]) ++ rest)
        by (rewrite <- !app_assoc; reflexivity).
      replace (len pre + 2) with (len (pre ++ [b1; b2]))
        by (rewrite len_app, !len_cons, len_nil; lia).
      rewrite slice_app by lia. cbn [bind].
      set (n := Z.to_nat (be16 b1 b2)).
      destruct (IH ((pre ++ [b1; b2]) ++ firstn n rest) (skipn n rest)
                  (acc ++ [firstn n rest])) as [us Hrun].
      { rewrite length_skipn. cbn [List.length] in Hfuel. lia. }
      rewrite <- app_assoc, firstn_skipn in Hrun.
      replace (len (pre ++ [b1; b2]) + be16 b1 b2)
        with (len ((pre ++ [b1; b2]) ++ firstn n rest)).
      2:{ rewrite (len_app _ (firstn n rest)). f_equal.
          unfold len. rewrite length_firstn. subst n. unfold len in Hfit.
          lia. }
      eauto.
Qed.

(** It returns on every input as well. *)
Lemma unsequenced_Depacketize_returns (d : Unsequenced.H264Depacketizer)
    (payload : list byte) :
  exists d' out, Unsequenced.Depacketize d payload = Ok (d', out).
Proof.
  destruct payload as [|b0 rest]; [exists d, []; reflexivity|].
  unfold Unsequenced.Depacketize. rewrite len_lt_1_cons, index_0. cbn [bind].
  destruct ((1 <=? Z.land (u8 b0) 31) && (Z.land (u8 b0) 31 <=? 23));
    [eauto|].
  destruct (Z.land (u8 b0) 31 =? 24).
  - unfold Unsequenced.depacketizeSTAPA.
    destruct (@unsequenced_stapaLoop_returns (length (b0 :: rest)) [b0] rest
                []) as [us Hrun]; [cbn [List.length]; lia|].
    change ([b0] ++ rest) with (b0 :: rest) in Hrun.
    change (len [b0]) with 1 in Hrun. rewrite Hrun. cbn [bind]. eauto.
  - destruct (Z.land (u8 b0) 31 =? 28); [|eauto].
    destruct rest as [|h rest]; [exists d, []; reflexivity|].
    unfold Unsequenced.depacketizeFUA.
    rewrite len_lt_2_cons, index_0. cbn [bind]. rewrite index_1. cbn [bind].
    rewrite slice_from_2. cbn [bind].
    destruct (negb (Z.land (u8 h) 64 =? 0)); eauto.
Qed.

(** An end fragment that no start fragment preceded is given out as a unit
    of its own. *)
Example unsequenced_orphan_end_is_emitted :
  Unsequenced.Depacketize Unsequenced.NewH264Depacketizer
    [x7c; x45; x03; x04]
  = Ok (Unsequenced.NewH264Depacketizer, [[x03; x04]]).
Proof. reflexivity. Qed.

(** A zero size in a STAP-A gives an empty unit, and parsing goes on. *)
Example unsequenced_stapa_zero_size_goes_on :
  Unsequenced.Depacketize Unsequenced.NewH264Depacketizer
    [x18; x00; x00; x00; x01; x68]
  = Ok (Unsequenced.NewH264Depacketizer, [[]; [x68]]).
Proof. reflexivity. Qed.

Example sequenced_stapa_zero_size_stops :
  Depacketize NewH264Depacketizer 0 [x18; x00; x00; x00; x01; x68]
  = Ok (NewH264Depacketizer, []).
Proof. reflexivity. Qed.

(** * Further properties of the code *)

(** ** The depacketizer: streams *)

(** X1. Packets of type 1..23 pass through: each payload comes out as the
    one unit of its call, whole and in order, and the reassembly state is
    not touched. *)
Theorem single_nal_stream_passes_through :
  forall (d : H264Depacketizer) (pkts : list (Z * list byte)),
    forallb (fun p => isSingle (snd p)) pkts = true ->
    feed d pkts = Ok (d, map (fun p => [snd p]) pkts).
Proof.
  intros d pkts H. induction pkts as [|[s payload] pkts IH]; [reflexivity|].
  cbn [forallb snd] in H. apply andb_true_iff in H. destruct H as [Hp Hrest].
  destruct payload as [|b0 rest]; [discriminate|]. cbn [isSingle] in Hp.
  assert (Hcall : Depacketize d s (b0 :: rest) = Ok (d, [b0 :: rest])).
  { rewrite Depacketize_cons, Hp. reflexivity. }
  rewrite (@feed_cons _ _ _ _ _ pkts Hcall), (IH Hrest). reflexivity.
Qed.

Lemma single_nal_stream_passes_through_witness :
  feed (mkDepacketizer [x65; x01] true 101)
    [(7, [x41; x9a]); (8, [x67; x42; x00])]
  = Ok (mkDepacketizer [x65; x01] true 101, [[[x41; x9a]]; [[x67; x42; x00]]]).
Proof.
  apply (@single_nal_stream_passes_through
           (mkDepacketizer [x65; x01] true 101)
           [(7, [x41; x9a]); (8, [x67; x42; x00])]).
  reflexivity.
Defined.

(** X2. A FU-A packet gives at most one unit, and gives one only when it
    carries a FU header with the end flag: no part of a unit leaves the
    depacketizer before its last fragment. *)
Theorem fua_emits_only_on_end :
  forall (d : H264Depacketizer) (s : Z) (payload : list byte),
    isFUA payload = true ->
    exists d' out,
      Depacketize d s payload = Ok (d', out)
      /\ (length out <= 1)%nat
      /\ (out <> [] ->
          exists i h rest, payload = i :: h :: rest /\ endFlag h = true).
Proof.
  intros d s payload Hfua.
  destruct payload as [|i [|h rest]]; [discriminate | |].
  - cbn [isFUA] in Hfua. apply Z.eqb_eq in Hfua.
    rewrite Depacketize_fua by exact Hfua.
    exists d, []. split; [reflexivity|]. split; [cbn; lia | congruence].
  - cbn [isFUA] in Hfua. apply Z.eqb_eq in Hfua.
    rewrite Depacketize_fua by exact Hfua.
    change (i :: h :: rest) with (bytes (mkFragment i h rest)).
    rewrite depacketizeFUA_fragment. cbn [header indicator data bytes].
    destruct (endFlag h) eqn:He.
    + destruct (startFlag h), (negb (fuaStarted d)),
        (negb (s =? expectedSeq d));
        eexists _, _; (split; [reflexivity|]);
        (split; [cbn; lia
                | intros _; exists i, h, rest; split;
                    [reflexivity | exact He]]).
    + destruct (startFlag h), (negb (fuaStarted d)),
        (negb (s =? expectedSeq d));
        eexists _, _; (split; [reflexivity|]);
        (split; [cbn; lia | congruence]).
Qed.

Lemma fua_emits_only_on_end_witness :
  exists d' out,
    Depacketize (mkDepacketizer [x65; x01] true 101) 101 [x7c; x45; x02]
    = Ok (d', out)
    /\ (length out <= 1)%nat
    /\ (out <> [] ->
        exists i h rest,
          [x7c; x45; x02] = i :: h :: rest /\ endFlag h = true).
Proof.
  apply fua_emits_only_on_end. reflexivity.
Defined.

(** ** The depacketizer: what every reachable state satisfies *)

Lemma len_eqb_0_cons (A : Type) (a : A) (s : list A) :
  (len (a :: s) =? 0) = false.
Proof. apply Z.eqb_neq. rewrite len_cons. pose proof (len_nonneg s). lia. Qed.

Lemma stapa_units_no_empty (rest : list byte) (us : nalus) :
  stapa_units rest us -> no_empty_unit us = true.
Proof.
  intros H. induction H as [| | |b1 b2 rest us Hsz _ IH]; try reflexivity.
  cbn [no_empty_unit forallb]. fold (no_empty_unit us). rewrite IH.
  rewrite andb_true_r. apply negb_true_iff, Z.eqb_neq.
  unfold len in *. rewrite length_firstn. lia.
Qed.

Lemma uint16_succ_range (n : Z) : 0 <= uint16_succ n < 65536.
Proof. unfold uint16_succ. apply Z.mod_pos_bound. lia. Qed.

Lemma Depacketize_keeps_consistent (d : H264Depacketizer) (s : Z)
    (payload : list byte) :
  consistent d = true ->
  0 <= expectedSeq d < 65536 ->
  exists d' out,
    Depacketize d s payload = Ok (d', out)
    /\ consistent d' = true
    /\ 0 <= expectedSeq d' < 65536
    /\ no_empty_unit out = true.
Proof.
  intros Hc Hr.
  assert (Hsame : forall out,
             no_empty_unit out = true ->
             exists d' out',
               Ok (d, out) = Ok (d', out')
               /\ consistent d' = true
               /\ 0 <= expectedSeq d' < 65536
               /\ no_empty_unit out' = true).
  { intros out Hout. exists d, out. auto. }
  destruct payload as [|b0 rest]; [apply Hsame; reflexivity|].
  rewrite Depacketize_cons.
  destruct ((1 <=? nalType b0) && (nalType b0 <=? 23)).
  { apply Hsame. cbn [no_empty_unit forallb]. rewrite len_eqb_0_cons.
    reflexivity. }
  destruct (nalType b0 =? 24).
  { destruct (depacketizeSTAPA_units d b0 rest) as [us [Hrun Hus]].
    rewrite Hrun. apply Hsame. exact (stapa_units_no_empty Hus). }
  destruct (nalType b0 =? 28); [|apply Hsame; reflexivity].
  destruct rest as [|h rest]; [apply Hsame; reflexivity|].
  change (b0 :: h :: rest) with (bytes (mkFragment b0 h rest)).
  rewrite depacketizeFUA_fragment. cbn [header indicator data].
  pose proof (uint16_succ_range s) as Hs.
  assert (Hnew : forall buf started out,
             Bool.eqb started (match buf with [] => false | _ => true end)
             = true ->
             no_empty_unit out = true ->
             exists d' out',
               Ok (mkDepacketizer buf started (uint16_succ s), out)
               = Ok (d', out')
               /\ consistent d' = true
               /\ 0 <= expectedSeq d' < 65536
               /\ no_empty_unit out' = true).
  { intros buf started out Hb Hout. eexists _, _.
    split; [reflexivity|]. auto. }
  destruct (startFlag h).
  { destruct (endFlag h); apply Hnew; reflexivity. }
  destruct (fuaStarted d) eqn:Hst; cbn [negb];
    [|apply Hsame; reflexivity].
  destruct (s =? expectedSeq d); cbn [negb].
  2:{ eexists _, _. split; [reflexivity|]. auto. }
  unfold consistent in Hc. rewrite Hst in Hc.
  destruct (fuaBuf d) as [|x buf] eqn:Hbuf; [discriminate|].
  destruct (endFlag h); apply Hnew; reflexivity.
Qed.

Lemma feed_keeps_consistent (pkts : list (Z * list byte)) :
  forall (d : H264Depacketizer),
    consistent d = true ->
    0 <= expectedSeq d < 65536 ->
    exists d' outs,
      feed d pkts = Ok (d', outs)
      /\ consistent d' = true
      /\ 0 <= expectedSeq d' < 65536
      /\ forallb no_empty_unit outs = true.
Proof.
  induction pkts as [|[s payload] pkts IH]; intros d Hc Hr.
  - exists d, []. auto.
  - destruct (Depacketize_keeps_consistent d s payload Hc Hr)
      as [d1 [out [Hcall [Hc1 [Hr1 Hout]]]]].
    destruct (IH d1 Hc1 Hr1) as [d' [outs [Hrun [Hc' [Hr' Houts]]]]].
    exists d', (out :: outs).
    rewrite (@feed_cons _ _ _ _ _ pkts Hcall), Hrun.
    cbn [bind fst snd forallb]. rewrite Hout, Houts. auto.
Qed.

(** X3. Whatever the packets, an instance whose started flag agrees with its
    buffer (as a new instance does) keeps that agreement: the flag is set
    exactly when the buffer holds something; its expected sequence number
    stays a [uint16]; no call faults; and no unit it gives out is empty (the
    test [len(nalu) == 0] of the track reader never fires on it). *)
Theorem reachable_states_are_consistent :
  forall (d : H264Depacketizer) (pkts : list (Z * list byte)),
    consistent d = true ->
    0 <= expectedSeq d < 65536 ->
    exists d' outs,
      feed d pkts = Ok (d', outs)
      /\ consistent d' = true
      /\ 0 <= expectedSeq d' < 65536
      /\ forallb no_empty_unit outs = true.
Proof. intros d pkts. apply feed_keeps_consistent. Qed.

Lemma reachable_states_are_consistent_witness :
  exists d' outs,
    feed NewH264Depacketizer
      [(65535, [x7c; x85; x01]); (0, [x18; x00; x00]); (0, [x7c; x45])]
    = Ok (d', outs)
    /\ consistent d' = true
    /\ 0 <= expectedSeq d' < 65536
    /\ forallb no_empty_unit outs = true.
Proof.
  apply reachable_states_are_consistent; [reflexivity | cbn; lia].
Defined.

(** ** STAP-A: what is packed comes out *)

Lemma u8_byte_of_Z (z : Z) : 0 <= z < 256 -> u8 (byte_of_Z z) = z.
Proof.
  intros H. unfold u8, byte_of_Z. rewrite Z.mod_small by exact H.
  destruct (Byte.of_N (Z.to_N z)) as [b|] eqn:E.
  - apply Byte.to_of_N in E. rewrite E. lia.
  - apply Byte.of_N_None_iff in E. lia.
Qed.

Lemma be16_size_bytes (n : Z) :
  0 <= n < 65536 ->
  be16 (byte_of_Z (n / 256)) (byte_of_Z (n mod 256)) = n.
Proof.
  intros H. unfold be16.
  assert (H1 : 0 <= n / 256 < 256).
  { split; [apply Z.div_pos; lia | apply Z.div_lt_upper_bound; lia]. }
  pose proof (Z.mod_pos_bound n 256 ltac:(lia)) as H2.
  rewrite !u8_byte_of_Z by assumption.
  rewrite (Z.div_mod n 256) at 3 by lia. reflexivity.
Qed.

Lemma stapa_units_body (units : nalus) :
  forallb (fun u => (0 <? len u) && (len u <? 65536)) units = true ->
  stapa_units (stapa_body units) units.
Proof.
  induction units as [|u units IH]; intros H.
  - apply stapa_short. rewrite len_nil. lia.
  - cbn [forallb] in H. apply andb_true_iff in H. destruct H as [Hu Hrest].
    apply andb_true_iff in Hu. destruct Hu as [Hpos Hlt].
    apply Z.ltb_lt in Hpos, Hlt.
    unfold stapa_body. cbn [map concat]. fold (stapa_body units).
    unfold size_bytes. cbn [app].
    pose proof (@be16_size_bytes (len u) ltac:(lia)) as Hsz.
    assert (Hn : Z.to_nat (len u) = length u) by (unfold len; lia).
    set (b1 := byte_of_Z (len u / 256)) in *.
    set (b2 := byte_of_Z (len u mod 256)) in *.
    assert (Hunit : stapa_units (b1 :: b2 :: u ++ stapa_body units)
                      (firstn (Z.to_nat (be16 b1 b2)) (u ++ stapa_body units)
                       :: units)).
    { apply stapa_unit.
      - rewrite Hsz, len_app. pose proof (len_nonneg (stapa_body units)).
        lia.
      - rewrite Hsz, Hn, skipn_app, Nat.sub_diag, skipn_all. cbn [skipn app].
        apply IH. exact Hrest. }
    rewrite Hsz, Hn, firstn_app, Nat.sub_diag, firstn_all in Hunit.
    cbn [firstn] in Hunit. rewrite app_nil_r in Hunit. exact Hunit.
Qed.

(** X4. A STAP-A packet built as the test builds it (the header byte, then
    each unit after its two-byte big-endian length) gives back exactly the
    units packed, in order, provided each has between 1 and 65535 bytes. *)
Theorem stapa_round_trip :
  forall (d : H264Depacketizer) (s : Z) (b0 : byte) (units : nalus),
    nalType b0 = 24 ->
    forallb (fun u => (0 <? len u) && (len u <? 65536)) units = true ->
    Depacketize d s (b0 :: stapa_body units) = Ok (d, units).
Proof.
  intros d s b0 units Ht Hunits.
  destruct (depacketizeSTAPA_units d b0 (stapa_body units))
    as [us [Hrun Hus]].
  rewrite Depacketize_cons, Ht. cbn [andb Z.leb Z.eqb].
  change (depacketizeSTAPA d (b0 :: stapa_body units) = Ok (d, units)).
  rewrite Hrun. f_equal. f_equal.
  exact (stapa_units_functional Hus (stapa_units_body units Hunits)).
Qed.

Lemma stapa_round_trip_witness :
  Depacketize NewH264Depacketizer 100
    (x18 :: stapa_body [[x67; xaa; xbb]; [x68; xcc]])
  = Ok (NewH264Depacketizer, [[x67; xaa; xbb]; [x68; xcc]]).
Proof.
  apply stapa_round_trip; reflexivity.
Defined.

(** ** The two STAP-A loops, one turn at a time *)

Lemma stapaLoop_short (fuel : nat) (pre rest : list byte) (acc : nalus) :
  len rest < 2 ->
  stapaLoop fuel (pre ++ rest) (len pre) acc = Ok acc
  /\ Unsequenced.stapaLoop fuel (pre ++ rest) (len pre) acc = Ok acc.
Proof.
  intros H.
  assert (E : (len pre + 2 <=? len (pre ++ rest)) = false)
    by (apply Z.leb_gt; rewrite len_app; lia).
  destruct fuel; cbn [stapaLoop Unsequenced.stapaLoop]; rewrite E; auto.
Qed.

Section LoopTurn.
Variables (fuel : nat) (pre rest : list byte) (b1 b2 : byte) (acc : nalus).

Let size : Z := be16 b1 b2.
Let unit : list byte := firstn (Z.to_nat size) rest.
Let pre' : list byte := (pre ++ [b1; b2]) ++ unit.
Let rest' : list byte := skipn (Z.to_nat size) rest.

Lemma turn_payload : pre ++ b1 :: b2 :: rest = pre' ++ rest'.
Proof.
  subst pre' rest' unit.
  rewrite <- !app_assoc, firstn_skipn. reflexivity.
Qed.

Lemma turn_offset :
  0 <= size <= len rest -> len pre' = len pre + 2 + size.
Proof.
  intros H. subst pre' unit. rewrite !len_app, !len_cons, len_nil.
  unfold len in *. rewrite length_firstn. lia.
Qed.

Lemma turn_head :
  index (pre ++ b1 :: b2 :: rest) (len pre) = Ok b1
  /\ index (pre ++ b1 :: b2 :: rest) (len pre + 1) = Ok b2
  /\ (len pre + 2 <=? len (pre ++ b1 :: b2 :: rest)) = true.
Proof.
  split; [apply index_app_r|]. split.
  - replace (pre ++ b1 :: b2 :: rest) with ((pre ++ [b1]) ++ b2 :: rest)
      by (rewrite <- app_assoc; reflexivity).
    replace (len pre + 1) with (len (pre ++ [b1]))
      by (rewrite len_app, len_cons, len_nil; lia).
    apply index_app_r.
  - apply Z.leb_le. rewrite len_app, !len_cons.
    pose proof (len_nonneg rest). lia.
Qed.

Lemma turn_slice :
  0 <= size <= len rest ->
  slice (pre ++ b1 :: b2 :: rest) (len pre + 2) (len pre + 2 + size)
  = Ok unit.
Proof.
  intros H.
  replace (pre ++ b1 :: b2 :: rest) with ((pre ++ [b1; b2]) ++ rest)
    by (rewrite <- !app_assoc; reflexivity).
  replace (len pre + 2) with (len (pre ++ [b1; b2]))
    by (rewrite len_app, !len_cons, len_nil; lia).
  apply slice_app. exact H.
Qed.

(** One turn of the loop with the test for a zero size. *)
Lemma stapaLoop_turn :
  stapaLoop (S fuel) (pre ++ b1 :: b2 :: rest) (len pre) acc =
  if size =? 0 then Ok acc
  else if size >? len rest then Ok acc
  else stapaLoop fuel (pre' ++ rest') (len pre') (acc ++ [unit]).
Proof.
  destruct turn_head as [H1 [H2 H3]].
  cbn [stapaLoop]. rewrite H3, H1. cbn [bind]. rewrite H2. cbn [bind].
  rewrite lor_shiftl_be16. fold size.
  pose proof (u8_range b1). pose proof (u8_range b2).
  assert (Hnn : 0 <= size) by (subst size; unfold be16; lia).
  destruct (size =? 0); [reflexivity|].
  rewrite len_app, !len_cons.
  destruct (Z.gtb_spec size (len rest)) as [Hover | Hfit].
  - replace (len pre + 2 + size >? len pre + (len rest + 1 + 1)) with true
      by (symmetry; apply Z.gtb_lt; lia).
    reflexivity.
  - replace (len pre + 2 + size >? len pre + (len rest + 1 + 1)) with false
      by (symmetry; rewrite Z.gtb_ltb; apply Z.ltb_ge; lia).
    rewrite turn_slice by lia. cbn [bind].
    rewrite <- turn_offset by lia. rewrite turn_payload. reflexivity.
Qed.

(** One turn of the loop without that test. *)
Lemma unsequenced_stapaLoop_turn :
  Unsequenced.stapaLoop (S fuel) (pre ++ b1 :: b2 :: rest) (len pre) acc =
  if size >? len rest then Ok acc
  else Unsequenced.stapaLoop fuel (pre' ++ rest') (len pre') (acc ++ [unit]).
Proof.
  destruct turn_head as [H1 [H2 H3]].
  cbn [Unsequenced.stapaLoop]. rewrite H3, H1. cbn [bind]. rewrite H2.
  cbn [bind]. rewrite lor_shiftl_be16. fold size.
  pose proof (u8_range b1). pose proof (u8_range b2).
  assert (Hnn : 0 <= size) by (subst size; unfold be16; lia).
  rewrite len_app, !len_cons.
  destruct (Z.gtb_spec size (len rest)) as [Hover | Hfit].
  - replace (len pre + 2 + size >? len pre + (len rest + 1 + 1)) with true
      by (symmetry; apply Z.gtb_lt; lia).
    reflexivity.
  - replace (len pre + 2 + size >? len pre + (len rest + 1 + 1)) with false
      by (symmetry; rewrite Z.gtb_ltb; apply Z.ltb_ge; lia).
    rewrite turn_slice by lia. cbn [bind].
    rewrite <- turn_offset by lia. rewrite turn_payload. reflexivity.
Qed.

End LoopTurn.

(** The two loops side by side: the one without the zero test gives what
    the other gives and then, if it goes on at all, an empty unit first. *)
Lemma stapa_loops_side_by_side (fuel : nat) :
  forall (pre rest : list byte) (acc acc' : nalus),
    (length rest <= fuel)%nat ->
    exists us tail,
      stapaLoop fuel (pre ++ rest) (len pre) acc = Ok (acc ++ us)
      /\ Unsequenced.stapaLoop fuel (pre ++ rest) (len pre) acc'
         = Ok (acc' ++ us ++ tail)
      /\ (tail = [] \/ exists more, tail = [] :: more).
Proof.
  induction fuel as [|fuel IH]; intros pre rest acc acc' Hfuel.
  - destruct rest; [|cbn in Hfuel; lia].
    destruct (@stapaLoop_short 0 pre [] acc ltac:(rewrite len_nil; lia))
      as [H1 _].
    destruct (@stapaLoop_short 0 pre [] acc' ltac:(rewrite len_nil; lia))
      as [_ H2].
    exists [], []. rewrite H1, H2, !app_nil_r. auto.
  - destruct rest as [|b1 [|b2 rest]].
    + destruct (@stapaLoop_short (S fuel) pre [] acc
                  ltac:(rewrite len_nil; lia)) as [H1 _].
      destruct (@stapaLoop_short (S fuel) pre [] acc'
                  ltac:(rewrite len_nil; lia)) as [_ H2].
      exists [], []. rewrite H1, H2, !app_nil_r. auto.
    + destruct (@stapaLoop_short (S fuel) pre [b1] acc
                  ltac:(rewrite len_cons, len_nil; lia)) as [H1 _].
      destruct (@stapaLoop_short (S fuel) pre [b1] acc'
                  ltac:(rewrite len_cons, len_nil; lia)) as [_ H2].
      exists [], []. rewrite H1, H2, !app_nil_r. auto.
    + rewrite stapaLoop_turn, unsequenced_stapaLoop_turn. cbv zeta.
      set (n := Z.to_nat (be16 b1 b2)).
      assert (Hrest : (length (skipn n rest) <= fuel)%nat).
      { rewrite length_skipn. cbn [List.length] in Hfuel. lia. }
      pose proof (len_nonneg rest) as Hlen.
      destruct (Z.eqb_spec (be16 b1 b2) 0) as [Hz | Hnz].
      * replace (be16 b1 b2 >? len rest) with false
          by (symmetry; rewrite Z.gtb_ltb; apply Z.ltb_ge; lia).
        destruct (IH ((pre ++ [b1; b2]) ++ firstn n rest) (skipn n rest)
                    acc (acc' ++ [firstn n rest]) Hrest)
          as [us [tail [_ [H2 _]]]].
        exists [], ([] :: us ++ tail). rewrite app_nil_r.
        split; [reflexivity|]. split; [|right; eauto].
        rewrite H2, <- app_assoc. subst n. rewrite Hz. reflexivity.
      * destruct (be16 b1 b2 >? len rest).
        { exists [], []. rewrite !app_nil_r. auto. }
        destruct (IH ((pre ++ [b1; b2]) ++ firstn n rest) (skipn n rest)
                    (acc ++ [firstn n rest]) (acc' ++ [firstn n rest]) Hrest)
          as [us [tail [H1 [H2 Htail]]]].
        exists (firstn n rest :: us), tail.
        rewrite H1, H2, <- !app_assoc. auto.
Qed.

(** X5. On a STAP-A packet the depacketizer of internal/webrtc/depacketize.go
    gives the units the one with the zero-size test gives, in the same
    order, and after them either nothing or further units of which the first
    is empty (it reads on where the other stops at a zero size). *)
Theorem unsequenced_stapa_extends_sequenced :
  forall (d : H264Depacketizer) (d' : Unsequenced.H264Depacketizer) (s : Z)
         (b0 : byte) (rest : list byte),
    nalType b0 = 24 ->
    exists us tail,
      Depacketize d s (b0 :: rest) = Ok (d, us)
      /\ Unsequenced.Depacketize d' (b0 :: rest) = Ok (d', us ++ tail)
      /\ (tail = [] \/ exists more, tail = [] :: more).
Proof.
  intros d d' s b0 rest Ht.
  destruct (@stapa_loops_side_by_side (length (b0 :: rest)) [b0] rest [] [])
    as [us [tail [H1 [H2 Htail]]]]; [cbn [List.length]; lia|].
  change ([b0] ++ rest) with (b0 :: rest) in H1, H2.
  change (len [b0]) with 1 in H1, H2.
  exists us, tail. split; [|split; [|exact Htail]].
  - rewrite Depacketize_cons, Ht. cbn [andb Z.leb Z.eqb].
    change (depacketizeSTAPA d (b0 :: rest) = Ok (d, us)).
    unfold depacketizeSTAPA. rewrite H1. reflexivity.
  - unfold Unsequenced.Depacketize. rewrite len_lt_1_cons, index_0.
    cbn [bind]. fold (nalType b0). rewrite Ht. cbn [andb Z.leb Z.eqb].
    change (Unsequenced.depacketizeSTAPA d' (b0 :: rest)
            = Ok (d', us ++ tail)).
    unfold Unsequenced.depacketizeSTAPA. rewrite H2. reflexivity.
Qed.

Lemma unsequenced_stapa_extends_sequenced_witness :
  exists us tail,
    Depacketize NewH264Depacketizer 0
      (x18 :: [x00; x01; x67; x00; x00; x00; x01; x68])
    = Ok (NewH264Depacketizer, us)
    /\ Unsequenced.Depacketize Unsequenced.NewH264Depacketizer
         (x18 :: [x00; x01; x67; x00; x00; x00; x01; x68])
       = Ok (Unsequenced.NewH264Depacketizer, us ++ tail)
    /\ (tail = [] \/ exists more, tail = [] :: more).
Proof.
  apply unsequenced_stapa_extends_sequenced. reflexivity.
Defined.

(** ** The depacketizer without sequence numbers: fragments *)

Lemma unsequenced_Depacketize_fragment (d : Unsequenced.H264Depacketizer)
    (f : fragment) :
  nalType (indicator f) = 28 ->
  Unsequenced.Depacketize d (bytes f) =
  Ok (if endFlag (header f) then
        (Unsequenced.mkDepacketizer [],
         [if startFlag (header f)
          then nalHeader (indicator f) (header f) :: data f
          else Unsequenced.fuaBuf d ++ data f])
      else
        (Unsequenced.mkDepacketizer
           (if startFlag (header f)
            then nalHeader (indicator f) (header f) :: data f
            else Unsequenced.fuaBuf d ++ data f), [])).
Proof.
  intros Ht. unfold Unsequenced.Depacketize, bytes.
  rewrite len_lt_1_cons, index_0. cbn [bind]. fold (nalType (indicator f)).
  rewrite Ht. cbn [andb Z.leb Z.eqb].
  change (Unsequenced.depacketizeFUA d (indicator f :: header f :: data f)
          = Ok (if endFlag (header f) then
                  (Unsequenced.mkDepacketizer [],
                   [if startFlag (header f)
                    then nalHeader (indicator f) (header f) :: data f
                    else Unsequenced.fuaBuf d ++ data f])
                else
                  (Unsequenced.mkDepacketizer
                     (if startFlag (header f)
                      then nalHeader (indicator f) (header f) :: data f
                      else Unsequenced.fuaBuf d ++ data f), []))).
  unfold Unsequenced.depacketizeFUA.
  rewrite len_lt_2_cons, index_0. cbn [bind]. rewrite index_1. cbn [bind].
  rewrite slice_from_2. cbn [bind].
  fold (startFlag (header f)). fold (endFlag (header f)).
  fold (nalHeader (indicator f) (header f)).
  destruct (startFlag (header f)), (endFlag (header f)); reflexivity.
Qed.

Lemma track_feed_cons (d d' : Unsequenced.H264Depacketizer)
    (payload : list byte) (out : nalus) (rest : list (list byte)) :
  Unsequenced.Depacketize d payload = Ok (d', out) ->
  Track.feed d (payload :: rest) =
  (r <- Track.feed d' rest ;; Ok (fst r, out :: snd r)).
Proof. intros H. cbn [Track.feed]. rewrite H. reflexivity. Qed.

Lemma track_feed_continues (fs : list fragment) :
  forall (d : Unsequenced.H264Depacketizer),
    continues fs = true ->
    Track.feed d (map bytes fs)
    = Ok (Unsequenced.mkDepacketizer [],
          repeat [] (length fs - 1)
          ++ [[Unsequenced.fuaBuf d ++ concat (map data fs)]]).
Proof.
  induction fs as [|f rest IH]; intros d Hc; [discriminate|].
  destruct rest as [|g rest].
  - cbn [continues] in Hc. apply isFinal_inv in Hc.
    destruct Hc as [Ht [Hs He]].
    cbn [map Track.feed]. rewrite unsequenced_Depacketize_fragment by exact Ht.
    rewrite Hs, He. cbn. rewrite app_nil_r. reflexivity.
  - change (continues (f :: g :: rest))
      with (isMiddle f && continues (g :: rest)) in Hc.
    apply andb_true_iff in Hc. destruct Hc as [Hm Hc].
    apply isMiddle_inv in Hm. destruct Hm as [Ht [Hs He]].
    pose proof (unsequenced_Depacketize_fragment d f Ht) as Hstep.
    rewrite Hs, He in Hstep.
    change (map bytes (f :: g :: rest))
      with (bytes f :: map bytes (g :: rest)).
    rewrite (@track_feed_cons _ _ _ _ (map bytes (g :: rest)) Hstep).
    rewrite (IH _ Hc). cbn [bind fst snd Unsequenced.fuaBuf].
    replace (length (f :: g :: rest) - 1)%nat
      with (S (length (g :: rest) - 1)) by (cbn [List.length]; lia).
    cbn [repeat app map concat]. rewrite <- ?app_assoc. reflexivity.
Qed.

Lemma track_feed_chain (d : Unsequenced.H264Depacketizer)
    (fs : list fragment) :
  isChain fs = true ->
  Track.feed d (map bytes fs)
  = Ok (Unsequenced.mkDepacketizer [],
        repeat [] (length fs - 1) ++ [[reassembled fs]]).
Proof.
  destruct fs as [|f [|g rest]]; intros Hc; [discriminate | |].
  - cbn [isChain] in Hc. apply isWhole_inv in Hc.
    destruct Hc as [Ht [Hs He]].
    cbn [map Track.feed]. rewrite unsequenced_Depacketize_fragment by exact Ht.
    rewrite Hs, He. cbn. rewrite app_nil_r. reflexivity.
  - change (isChain (f :: g :: rest))
      with (isFirst f && continues (g :: rest)) in Hc.
    apply andb_true_iff in Hc. destruct Hc as [Hf Hc].
    apply isFirst_inv in Hf. destruct Hf as [Ht [Hs He]].
    pose proof (unsequenced_Depacketize_fragment d f Ht) as Hstep.
    rewrite Hs, He in Hstep.
    change (map bytes (f :: g :: rest))
      with (bytes f :: map bytes (g :: rest)).
    rewrite (@track_feed_cons _ _ _ _ (map bytes (g :: rest)) Hstep).
    rewrite (track_feed_continues _ _ Hc).
    cbn [bind fst snd Unsequenced.fuaBuf reassembled].
    replace (length (f :: g :: rest) - 1)%nat
      with (S (length (g :: rest) - 1)) by (cbn [List.length]; lia).
    cbn [repeat app map concat]. reflexivity.
Qed.

(** X6. The depacketizer without sequence numbers reassembles a FU-A chain
    too, from any state: nothing for the fragments before the last, then the
    one unit with the rebuilt header and the data of all fragments, and an
    empty buffer afterwards. *)
Theorem unsequenced_chain_reassembled :
  forall (d : Unsequenced.H264Depacketizer) (fs : list fragment),
    isChain fs = true ->
    Track.feed d (map bytes fs)
    = Ok (Unsequenced.mkDepacketizer [],
          repeat [] (length fs - 1) ++ [[reassembled fs]]).
Proof. exact track_feed_chain. Qed.

Lemma unsequenced_chain_reassembled_witness :
  Track.feed (Unsequenced.mkDepacketizer [xff; xfe])
    (map bytes
       [mkFragment x7c x85 [x01; x02]; mkFragment x7c x05 [x03; x04];
        mkFragment x7c x45 [x05; x06]])
  = Ok (Unsequenced.mkDepacketizer [],
        repeat [] 2 ++ [[[x65; x01; x02; x03; x04; x05; x06]]]).
Proof.
  apply (@unsequenced_chain_reassembled
           (Unsequenced.mkDepacketizer [xff; xfe])
           [mkFragment x7c x85 [x01; x02]; mkFragment x7c x05 [x03; x04];
            mkFragment x7c x45 [x05; x06]]).
  reflexivity.
Defined.

(** ** The track reader *)

Lemma annexB_app (us vs : nalus) :
  Track.annexB (us ++ vs) = Track.annexB us ++ Track.annexB vs.
Proof. unfold Track.annexB. rewrite map_app, concat_app. reflexivity. Qed.

Lemma nonempty_app (us vs : nalus) :
  Track.nonempty (us ++ vs) = Track.nonempty us ++ Track.nonempty vs.
Proof. apply filter_app. Qed.

(** The inner loop writes the start code and the unit for each unit that is
    not empty. *)
Lemma writeNalus_annexB (units : nalus) :
  forall (w : list byte),
    Track.writeNalus w units = w ++ Track.annexB (Track.nonempty units).
Proof.
  induction units as [|u units IH]; intros w.
  - cbn. rewrite app_nil_r. reflexivity.
  - cbn [Track.writeNalus Track.nonempty filter].
    destruct (len u =? 0); cbn [negb].
    + apply IH.
    + rewrite IH. fold (Track.nonempty units).
      change (u :: Track.nonempty units)
        with ([u] ++ Track.nonempty units).
      rewrite annexB_app. unfold Track.annexB at 2. cbn [map concat].
      rewrite app_nil_r, <- !app_assoc. reflexivity.
Qed.

Lemma track_feed_returns (payloads : list (list byte)) :
  forall (d : Unsequenced.H264Depacketizer),
    exists d' outs, Track.feed d payloads = Ok (d', outs).
Proof.
  induction payloads as [|payload payloads IH]; intros d.
  - exists d, []. reflexivity.
  - destruct (unsequenced_Depacketize_returns d payload) as [d1 [out H1]].
    destruct (IH d1) as [d' [outs H']].
    rewrite (@track_feed_cons _ _ _ _ payloads H1), H'. cbn. eauto.
Qed.

Lemma track_readLoop_feed (payloads : list (list byte)) :
  forall (d d' : Unsequenced.H264Depacketizer) (outs : list nalus)
         (tail : list (or_error (list byte))) (w : list byte),
    Track.feed d payloads = Ok (d', outs) ->
    Track.readLoop d (map Value payloads ++ tail) w
    = Track.readLoop d' tail
        (w ++ Track.annexB (Track.nonempty (concat outs))).
Proof.
  induction payloads as [|payload payloads IH];
    intros d d' outs tail w Hfeed.
  - cbn in Hfeed. injection Hfeed as <- <-. cbn. rewrite app_nil_r.
    reflexivity.
  - cbn [Track.feed] in Hfeed. cbn [map app Track.readLoop].
    destruct (Unsequenced.Depacketize d payload) as [[d1 out]| | |];
      try discriminate.
    cbn [bind fst snd] in *.
    destruct (Track.feed d1 payloads) as [[d2 outs2]| | |] eqn:E;
      try discriminate.
    cbn [bind fst snd] in Hfeed. injection Hfeed as <- <-.
    rewrite (IH d1 d2 outs2 tail _ E). cbn [concat].
    rewrite writeNalus_annexB, nonempty_app, annexB_app, <- app_assoc.
    reflexivity.
Qed.

(** X7. [readVideoTrack] never faults, whatever the packets; when it
    returns (the packets are used up, or [ReadRTP] fails, after which
    nothing is read) the sink holds what it held before followed by the
    Annex-B stream of the units the depacketizer gave for the packets read,
    in order and without the empty ones: the start code 00 00 00 01 before
    each. *)
Theorem readVideoTrack_writes_annexB :
  forall (payloads : list (list byte)) (w : list byte),
    exists d' outs,
      Track.feed Unsequenced.NewH264Depacketizer payloads = Ok (d', outs)
      /\ Track.readVideoTrack (map Value payloads) w
         = Ok (w ++ Track.annexB (Track.nonempty (concat outs)))
      /\ forall err rest,
           Track.readVideoTrack (map Value payloads ++ Error err :: rest) w
           = Ok (w ++ Track.annexB (Track.nonempty (concat outs))).
Proof.
  intros payloads w.
  destruct (track_feed_returns payloads Unsequenced.NewH264Depacketizer)
    as [d' [outs Hfeed]].
  exists d', outs. split; [exact Hfeed|]. unfold Track.readVideoTrack. split.
  - rewrite <- (app_nil_r (map Value payloads)).
    rewrite (track_readLoop_feed _ _ [] w Hfeed). reflexivity.
  - intros err rest.
    rewrite (track_readLoop_feed _ _ (Error err :: rest) w Hfeed).
    reflexivity.
Qed.

(** X8. A FU-A chain read from the track puts one thing into the sink: the
    start code and the reassembled unit. *)
Theorem readVideoTrack_chain :
  forall (fs : list fragment) (w : list byte),
    isChain fs = true ->
    Track.readVideoTrack (map (fun f => Value (bytes f)) fs) w
    = Ok (w ++ Track.startCode ++ reassembled fs).
Proof.
  intros fs w Hc. unfold Track.readVideoTrack.
  rewrite <- (map_map bytes Value), <- (app_nil_r (map Value (map bytes fs))).
  rewrite (track_readLoop_feed _ _ [] w (track_feed_chain _ fs Hc)).
  cbn [Track.readLoop]. f_equal. f_equal.
  rewrite concat_app, nonempty_app, annexB_app.
  replace (Track.nonempty (concat (repeat [] (length fs - 1))))
    with (@nil (list byte)).
  2:{ induction (length fs - 1)%nat; [reflexivity | assumption]. }
  destruct fs as [|f fs]; [discriminate|].
  cbn [reassembled concat app Track.nonempty filter].
  rewrite len_eqb_0_cons. cbn. rewrite app_nil_r. reflexivity.
Qed.

Lemma readVideoTrack_chain_witness :
  Track.readVideoTrack
    (map (fun f => Value (bytes f))
       [mkFragment x7c x85 [x01; x02]; mkFragment x7c x45 [x05; x06]])
    [xaa]
  = Ok ([xaa] ++ Track.startCode
        ++ reassembled
             [mkFragment x7c x85 [x01; x02]; mkFragment x7c x45 [x05; x06]]).
Proof.
  apply readVideoTrack_chain. reflexivity.
Defined.

(** ** Local candidates: the loopback filter *)

Section LocalFacts.
Import Local.
Local Open Scope string_scope.

Lemma hasPrefix_append (prefix post : string) :
  hasPrefix (prefix ++ post) prefix = true.
Proof.
  induction prefix as [|c prefix IH]; [destruct post; reflexivity|].
  cbn. rewrite Ascii.eqb_refl, IH. reflexivity.
Qed.

Lemma hasPrefix_inv (prefix : string) :
  forall s, hasPrefix s prefix = true -> exists post, s = prefix ++ post.
Proof.
  induction prefix as [|c prefix IH]; intros s H.
  - exists s. reflexivity.
  - destruct s as [|c' s]; [discriminate|]. cbn in H.
    apply andb_true_iff in H. destruct H as [Hc Hs].
    apply Ascii.eqb_eq in Hc. subst c'.
    destruct (IH s Hs) as [post ->]. exists post. reflexivity.
Qed.

(** [contains] is the substring test. *)
Lemma contains_iff (s substr : string) :
  contains s substr = true <-> exists pre post, s = pre ++ substr ++ post.
Proof.
  split.
  - induction s as [|c s IH]; cbn [contains]; intros H.
    + rewrite orb_false_r in H. apply hasPrefix_inv in H.
      destruct H as [post ->]. exists EmptyString, post. reflexivity.
    + apply orb_true_iff in H. destruct H as [H | H].
      * apply hasPrefix_inv in H. destruct H as [post ->].
        exists EmptyString, post. reflexivity.
      * destruct (IH H) as [pre [post ->]].
        exists (String c pre), post. reflexivity.
  - intros [pre [post ->]]. induction pre as [|c pre IH].
    + cbn [append]. destruct (substr ++ post) eqn:E; cbn [contains];
        rewrite <- E, hasPrefix_append; reflexivity.
    + cbn [append contains]. rewrite IH. apply orb_true_r.
Qed.

Lemma isLoopback_iff (candidate : string) :
  isLoopback candidate = true
  <-> has_substring candidate "127.0.0.1" \/ has_substring candidate "::1 ".
Proof.
  unfold isLoopback, has_substring.
  rewrite orb_true_iff, !contains_iff. reflexivity.
Qed.

Lemma gather_cons (S : Type) (send : string -> Z -> string -> S -> S)
    (c : option ICECandidateJSON) (cs : list (option ICECandidateJSON))
    (s : S) :
  gather send (c :: cs) s = gather send cs (onICECandidate send c s).
Proof. reflexivity. Qed.

(** What a gathering hands to [send], call by call. *)
Lemma gather_record_send (cs : list (option ICECandidateJSON)) :
  forall (log : list (string * Z * string)),
    gather record_send cs log
    = (log ++ map send_arguments
                (filter (fun j => negb (isLoopback (jCandidate j)))
                   (present cs)))%list.
Proof.
  induction cs as [|c cs IH]; intros log.
  - cbn. rewrite app_nil_r. reflexivity.
  - rewrite gather_cons, IH. destruct c as [j|]; cbn [onICECandidate present].
    + cbn [filter]. destruct (isLoopback (jCandidate j)); cbn [negb].
      * reflexivity.
      * unfold record_send. rewrite <- app_assoc. reflexivity.
    + reflexivity.
Qed.

Lemma present_app (cs cs' : list (option ICECandidateJSON)) :
  present (cs ++ cs') = (present cs ++ present cs')%list.
Proof.
  induction cs as [|[j|] cs IH]; cbn [app present]; rewrite ?IH; reflexivity.
Qed.

Lemma present_length (cs : list (option ICECandidateJSON)) :
  (length (present cs) <= length cs)%nat.
Proof.
  induction cs as [|[j|] cs IH]; cbn [present List.length]; lia.
Qed.

Lemma present_In (cs : list (option ICECandidateJSON))
    (j : ICECandidateJSON) :
  In (Some j) cs <-> In j (present cs).
Proof.
  induction cs as [|[j'|] cs IH]; cbn [present In].
  - tauto.
  - rewrite <- IH. split; intros [H|H]; auto; left; congruence.
  - rewrite <- IH. split; [intros [H|H]; [discriminate | exact H] | auto].
Qed.

(** X9. Whatever candidates the engine reports, the callback of
    [SetOnICECandidate] calls [send] for the candidates that are not nil and
    whose string holds neither 127.0.0.1 nor "::1 " anywhere, once each and
    in the order in which they were reported, with an empty mid and line
    index 0 where the engine gave none, and for no other: a nil candidate
    and a candidate that holds one of the two strings send nothing. *)
Theorem loopback_candidates_are_not_sent :
  forall (cs : list (option ICECandidateJSON))
         (log : list (string * Z * string)),
    exists added,
      gather record_send cs log = (log ++ added)%list
      /\ added
         = map send_arguments
             (filter (fun j => negb (isLoopback (jCandidate j))) (present cs))
      /\ (forall j,
            isLoopback (jCandidate j) = true
            <-> has_substring (jCandidate j) "127.0.0.1"
                \/ has_substring (jCandidate j) "::1 ")
      /\ (forall before after,
            gather record_send (before ++ None :: after) log
            = gather record_send (before ++ after) log)
      /\ (length added <= length cs)%nat
      /\ Forall (fun t => ~ has_substring (snd t) "127.0.0.1"
                          /\ ~ has_substring (snd t) "::1 ") added
      /\ forall j,
           In (Some j) cs ->
           ~ has_substring (jCandidate j) "127.0.0.1" ->
           ~ has_substring (jCandidate j) "::1 " ->
           In (match jSDPMid j with Some mid => mid | None => EmptyString end,
               match jSDPMLineIndex j with Some i => i | None => 0%Z end,
               jCandidate j) added.
Proof.
  intros cs log. eexists. split; [apply gather_record_send|].
  split; [reflexivity|]. split; [intros j; apply isLoopback_iff|].
  split; [|split; [|split]].
  - intros before after. rewrite !gather_record_send, !present_app.
    reflexivity.
  - rewrite length_map.
    etransitivity; [apply filter_length_le | apply present_length].
  - apply Forall_map, Forall_forall. intros j Hj.
    apply filter_In in Hj. destruct Hj as [_ Hj].
    apply negb_true_iff in Hj. cbn [send_arguments snd].
    split; intros H;
      assert (isLoopback (jCandidate j) = true)
        by (apply isLoopback_iff; auto); congruence.
  - intros j Hin H1 H2.
    change (In (send_arguments j)
              (map send_arguments
                 (filter (fun j => negb (isLoopback (jCandidate j)))
                    (present cs)))).
    apply in_map, filter_In. split; [apply present_In; exact Hin|].
    apply negb_true_iff. destruct (isLoopback (jCandidate j)) eqn:E;
      [|reflexivity].
    apply isLoopback_iff in E. tauto.
Qed.

End LocalFacts.

(** ** Local candidates: from the engine to the far end *)

Section ForwardFacts.
Import Domain Webrtc Signal Local.
Context {transport : Transport}.

(** X10. A local candidate that is not loopback goes out as exactly one
    TRANSMIT/ICE_CANDIDATE message; a client that receives that message
    (with codecs that decode what they encoded) calls
    [OnRemoteICECandidate] with the same candidate string, the same mid
    (empty if the engine gave none) and the same line index (0 if none). A
    nil or loopback candidate sends nothing. *)
Theorem local_candidate_reaches_remote_handler :
  forall (sc : Client) (j : ICECandidateJSON),
    let payload :=
      mkICECandidatePayload
        (match jSDPMid j with Some mid => mid | None => EmptyString end)
        (match jSDPMLineIndex j with Some i => i | None => 0 end)
        (jCandidate j) in
    let json := ignoring_error (json_Marshal_ICECandidatePayload payload) in
    base64_DecodeString (base64_EncodeToString json) = Value json ->
    json_Unmarshal_ICECandidatePayload json = Value payload ->
    forward None sc = sc
    /\ (isLoopback (jCandidate j) = true -> forward (Some j) sc = sc)
    /\ (isLoopback (jCandidate j) = false ->
        exists msg,
          sent (forward (Some j) sc) = sent sc ++ [msg]
          /\ mMethod msg = "TRANSMIT"%string
          /\ mMessageType msg = "ICE_CANDIDATE"%string
          /\ mRecipientClientID msg = serial sc
          /\ dispatch msg = [OnRemoteICECandidate payload]).
Proof.
  intros sc j payload json Hb64 Hjson. split; [reflexivity|]. split.
  - intros E. unfold forward. cbn [onICECandidate]. rewrite E. reflexivity.
  - intros E. unfold forward. cbn [onICECandidate]. rewrite E.
    eexists. split.
    + unfold SendICECandidate, sendJSON.
      destruct (json_Marshal_message _) as [data|e];
        [destruct (connWriteMessage (conn sc) data)|]; reflexivity.
    + split; [reflexivity|]. split; [reflexivity|]. split; [reflexivity|].
      unfold dispatch, iceCandidateMessage.
      cbn [mMethod mMessageType mMessagePayload String.eqb Ascii.eqb
           Bool.eqb].
      fold payload. fold json. rewrite Hb64, Hjson. reflexivity.
Qed.

End ForwardFacts.

Lemma local_candidate_reaches_remote_handler_witness :
  exists msg,
    Signal.sent (@Local.forward Standin.transport
                   (Some StandinMore.aLocalCandidate) Standin.aClient)
    = [msg]
    /\ @Signal.dispatch Standin.transport msg
       = [Signal.OnRemoteICECandidate
            (Domain.mkICECandidatePayload "0" 0
               "candidate:1 1 udp 2130706431 192.168.1.2 50000 typ host")].
Proof.
  destruct (@local_candidate_reaches_remote_handler Standin.transport
              Standin.aClient StandinMore.aLocalCandidate eq_refl eq_refl)
    as [_ [_ H]].
  destruct (H eq_refl) as [msg [Hsent [_ [_ [_ Hd]]]]].
  exists msg. split; [exact Hsent | exact Hd].
Defined.

(** ** Package config: [Load] *)

Section ConfigFacts.
Import Config.
Local Open Scope string_scope.

(** X11. [Load] never returns a configuration with an empty token or an
    empty serial number; and when the environment itself sets both
    variables to non-empty values, [Load] returns exactly those, whatever
    the [.env] file says, as long as loading the file leaves variables that
    are set alone. *)
Theorem Load_prefers_environment :
  forall (dotenv : environ -> environ) (env : environ),
    keeps_existing dotenv ->
    (forall cfg,
       Load dotenv env = Value cfg ->
       Token cfg <> EmptyString /\ SerialNumber cfg <> EmptyString)
    /\ (forall token sn,
          env "VICO_TOKEN" = Some token -> token <> EmptyString ->
          env "VICO_SN" = Some sn -> sn <> EmptyString ->
          Load dotenv env = Value (mkConfig token sn)).
Proof.
  intros dotenv env Hkeep. split.
  - intros cfg. unfold Load.
    destruct (String.eqb_spec (Getenv (dotenv env) "VICO_TOKEN") EmptyString)
      as [|Ht]; [discriminate|].
    destruct (String.eqb_spec (Getenv (dotenv env) "VICO_SN") EmptyString)
      as [|Hs]; [discriminate|].
    intros H. injection H as <-. auto.
  - intros token sn Ht Htne Hs Hsne. unfold Load, Getenv.
    rewrite (Hkeep _ _ _ Ht), (Hkeep _ _ _ Hs).
    destruct (String.eqb_spec token EmptyString); [contradiction|].
    destruct (String.eqb_spec sn EmptyString); [contradiction|].
    reflexivity.
Qed.

End ConfigFacts.

Lemma Load_prefers_environment_witness :
  Config.Load Config.aDotenv Config.anEnviron
  = Value (Config.mkConfig "jwt" "SN123").
Proof.
  assert (Hkeep : Config.keeps_existing Config.aDotenv).
  { intros env key value H. unfold Config.aDotenv. rewrite H. reflexivity. }
  destruct (@Load_prefers_environment Config.aDotenv Config.anEnviron Hkeep)
    as [_ H].
  apply H; [reflexivity | discriminate | reflexivity | discriminate].
Defined.

(** ** The signaling client: which frame calls which handler *)

Section DispatchMore.
Import Domain Webrtc Signal.
Context {transport : Transport}.
Local Open Scope string_scope.

Lemma dispatch_length (msg : message) : (length (dispatch msg) <= 1)%nat.
Proof.
  unfold dispatch.
  repeat match goal with
         | |- context [if ?b then _ else _] => destruct b
         | |- context [match ?x with _ => _ end] => destruct x
         end; cbn; lia.
Qed.

(** Every handler call of [dispatch] comes from the frame it is for. *)
Lemma dispatch_In_inv (msg : message) (call : callback) :
  In call (dispatch msg) ->
  (call = OnAuthSuccess
   /\ mMethod msg = "AUTH_RESPONSE" /\ mCode msg = Some 0%Z)
  \/ (call = OnPeerIn /\ mMethod msg = "PEER_IN")
  \/ (call = OnPeerOut /\ mMethod msg = "PEER_OUT")
  \/ (exists sdp decoded,
        call = OnSDPAnswer sdp
        /\ mMethod msg = "TRANSMIT" /\ mMessageType msg = "SDP_ANSWER"
        /\ base64_DecodeString (mMessagePayload msg) = Value decoded
        /\ json_Unmarshal_SDPPayload decoded = Value sdp)
  \/ (exists candidate decoded,
        call = OnRemoteICECandidate candidate
        /\ mMethod msg = "TRANSMIT" /\ mMessageType msg = "ICE_CANDIDATE"
        /\ base64_DecodeString (mMessagePayload msg) = Value decoded
        /\ json_Unmarshal_ICECandidatePayload decoded = Value candidate).
Proof.
  unfold dispatch.
  destruct (String.eqb_spec (mMethod msg) "AUTH_RESPONSE") as [E1|E1].
  { destruct (mCode msg) as [code|]; [|intros []].
    destruct (Z.eqb_spec code 0) as [->|Hc]; [|intros []].
    intros [<-|[]]. left. auto. }
  destruct (String.eqb_spec (mMethod msg) "JOIN_LIVE_RESPONSE") as [E2|E2];
    [intros []|].
  destruct (String.eqb_spec (mMethod msg) "PEER_IN") as [E3|E3].
  { intros [<-|[]]. right. left. auto. }
  destruct (String.eqb_spec (mMethod msg) "PEER_OUT") as [E4|E4].
  { intros [<-|[]]. right. right. left. auto. }
  destruct (String.eqb_spec (mMethod msg) "TRANSMIT") as [E5|E5].
  2:{ destruct ((mMethod msg =? "TRANSMIT_RESPONSE")
                || (mMethod msg =? "RESPONSE")); intros []. }
  destruct (String.eqb_spec (mMessageType msg) "SDP_ANSWER") as [T1|T1].
  { destruct (base64_DecodeString (mMessagePayload msg)) as [decoded|e];
      [|intros []].
    destruct (json_Unmarshal_SDPPayload decoded) as [sdp|e] eqn:Ej;
      [|intros []].
    intros [<-|[]]. right. right. right. left. exists sdp, decoded. auto. }
  destruct (String.eqb_spec (mMessageType msg) "ICE_CANDIDATE") as [T2|T2];
    [|intros []].
  destruct (base64_DecodeString (mMessagePayload msg)) as [decoded|e];
    [|intros []].
  destruct (json_Unmarshal_ICECandidatePayload decoded) as [c|e] eqn:Ej;
    [|intros []].
  intros [<-|[]]. right. right. right. right. exists c, decoded. auto.
Qed.

(** X12. [dispatch] makes at most one handler call for a frame, and the
    calls without payload are made for exactly these frames:
    [OnAuthSuccess] for AUTH_RESPONSE with code 0, [OnPeerIn] for PEER_IN,
    [OnPeerOut] for PEER_OUT. *)
Theorem dispatch_plain_calls :
  forall (msg : message),
    (length (dispatch msg) <= 1)%nat
    /\ (In OnAuthSuccess (dispatch msg)
        <-> mMethod msg = "AUTH_RESPONSE" /\ mCode msg = Some 0%Z)
    /\ (In OnPeerIn (dispatch msg) <-> mMethod msg = "PEER_IN")
    /\ (In OnPeerOut (dispatch msg) <-> mMethod msg = "PEER_OUT").
Proof.
  intros msg. split; [apply dispatch_length|].
  split; [|split]; split.
  - intros H. apply dispatch_In_inv in H.
    destruct H as [[_ H]|[[H _]|[[H _]|[[x [y [H _]]]|[x [y [H _]]]]]]];
      [exact H | discriminate ..].
  - intros [Hm Hc]. unfold dispatch. rewrite Hm, Hc. left. reflexivity.
  - intros H. apply dispatch_In_inv in H.
    destruct H as [[H _]|[[_ H]|[[H _]|[[x [y [H _]]]|[x [y [H _]]]]]]];
      [discriminate | exact H | discriminate ..].
  - intros Hm. unfold dispatch. rewrite Hm. left. reflexivity.
  - intros H. apply dispatch_In_inv in H.
    destruct H as [[H _]|[[H _]|[[_ H]|[[x [y [H _]]]|[x [y [H _]]]]]]];
      [discriminate | discriminate | exact H | discriminate ..].
  - intros Hm. unfold dispatch. rewrite Hm. left. reflexivity.
Qed.

(** X13. [OnSDPAnswer] and [OnRemoteICECandidate] are called for exactly the
    TRANSMIT frames of their message type whose payload is base64 of the
    JSON of the value handed to the handler. *)
Theorem dispatch_payload_calls :
  forall (msg : message),
    (forall sdp,
       In (OnSDPAnswer sdp) (dispatch msg)
       <-> mMethod msg = "TRANSMIT" /\ mMessageType msg = "SDP_ANSWER"
           /\ exists decoded,
                base64_DecodeString (mMessagePayload msg) = Value decoded
                /\ json_Unmarshal_SDPPayload decoded = Value sdp)
    /\ (forall candidate,
          In (OnRemoteICECandidate candidate) (dispatch msg)
          <-> mMethod msg = "TRANSMIT" /\ mMessageType msg = "ICE_CANDIDATE"
              /\ exists decoded,
                   base64_DecodeString (mMessagePayload msg) = Value decoded
                   /\ json_Unmarshal_ICECandidatePayload decoded
                      = Value candidate).
Proof.
  intros msg. split; intros x; split.
  - intros H. apply dispatch_In_inv in H.
    destruct H as [[H _]|[[H _]|[[H _]|[[sdp [decoded [H [Hm [Ht [Hd Hu]]]]]]
                                        |[y [z [H _]]]]]]];
      try discriminate.
    injection H as ->. eauto.
  - intros [Hm [Ht [decoded [Hd Hu]]]].
    unfold dispatch. rewrite Hm, Ht, Hd, Hu. left. reflexivity.
  - intros H. apply dispatch_In_inv in H.
    destruct H
      as [[H _]|[[H _]|[[H _]|[[y [z [H _]]]
                               |[c [decoded [H [Hm [Ht [Hd Hu]]]]]]]]]];
      try discriminate.
    injection H as ->. eauto.
  - intros [Hm [Ht [decoded [Hd Hu]]]].
    unfold dispatch. rewrite Hm, Ht, Hd, Hu. left. reflexivity.
Qed.

(** X14. None of the frames the client itself sends to open a session
    (AUTH, JOIN_LIVE, the SDP offer) makes [dispatch] call a handler when
    it comes in: an echo of them is ignored. *)
Theorem own_frames_call_no_handler :
  forall (c : Client) (sdp : string),
    dispatch (authMessage c) = []
    /\ dispatch (joinLiveMessage c) = []
    /\ dispatch (sdpOfferMessage c sdp) = [].
Proof. intros c sdp. repeat split. Qed.

End DispatchMore.

(** ** The signaling client: what is written is what was sent *)

Section SendFacts.
Import Domain Webrtc Signal Sends.
Context {transport : Transport}.

Lemma marshalled_app (msgs msgs' : list message) :
  marshalled (msgs ++ msgs') = marshalled msgs ++ marshalled msgs'.
Proof.
  induction msgs as [|msg msgs IH]; [reflexivity|].
  cbn [app marshalled]. destruct (json_Marshal_message msg);
    rewrite IH; reflexivity.
Qed.

Lemma sendJSON_keeps (c : Client) (msg : message) :
  ticket (sendJSON c msg) = ticket c
  /\ serial (sendJSON c msg) = serial c
  /\ sessionID (sendJSON c msg) = sessionID c
  /\ closed (sendJSON c msg) = closed c
  /\ sent (sendJSON c msg) = sent c ++ [msg]
  /\ (written c = marshalled (sent c) ->
      written (sendJSON c msg) = marshalled (sent (sendJSON c msg))).
Proof.
  unfold sendJSON. destruct (json_Marshal_message msg) as [data|e] eqn:E.
  - destruct (connWriteMessage (conn c) data) as [conn1 err].
    cbn [ticket serial sessionID closed sent written].
    repeat split. intros H. rewrite marshalled_app, H. cbn [marshalled].
    rewrite E. reflexivity.
  - cbn [ticket serial sessionID closed sent written].
    repeat split. intros H. rewrite marshalled_app, H. cbn [marshalled].
    rewrite E, app_nil_r. reflexivity.
Qed.



End SendFacts.


(** ** The read loop: where it stops *)

Section ReadLoopFacts.
Import Domain Webrtc Signal.
Context {transport : Transport}.
Variable H : Type.
Variable handle : callback -> H -> result H.

Lemma readLoop_frames_app (frames : list string) :
  forall (tail : list read) (h : H),
    readLoop handle (map ReadFrame frames ++ tail) h
    = (h' <- readLoop handle (map ReadFrame frames) h ;;
       readLoop handle tail h')%go.
Proof.
  induction frames as [|data frames IH]; intros tail h; [reflexivity|].
  cbn [map app readLoop].
  destruct (json_Unmarshal_message data) as [msg|e]; [|apply IH].
  destruct (handleAll handle (dispatch msg) h) as [h1| | |]; cbn [bind];
    [apply IH | reflexivity ..].
Qed.

(** X16. The read loop handles the frames read before the first failed read
    (or before it sees the client closed) and nothing after: what follows
    in the stream has no effect on the result. If a handler ends the
    process on one of those frames, that is the result. *)
Theorem readLoop_stops_at_first_failure :
  forall (frames : list string) (after : list read) (h : H),
    readLoop handle (map ReadFrame frames ++ ReadError :: after) h
    = readLoop handle (map ReadFrame frames) h
    /\ readLoop handle (map ReadFrame frames ++ SeenClosed :: after) h
       = readLoop handle (map ReadFrame frames) h.
Proof.
  intros frames after h. rewrite !readLoop_frames_app.
  destruct (readLoop handle (map ReadFrame frames) h); auto.
Qed.

End ReadLoopFacts.

(** ** The viewer: the other handlers *)

Section ViewerMore.
Import Domain Webrtc Signal Viewer.
Context {engine : PionEngine} {transport : Transport}.

(** X17. [OnAuthSuccess] always returns, gives [sendJSON] exactly one more
    message, the JOIN_LIVE frame (role viewer, named after the ticket id,
    addressed to the camera's serial number), and changes nothing else of
    the session. *)
Theorem auth_success_sends_join_live :
  forall (v : Viewer),
    exists v',
      OnAuthSuccess v = Ok v'
      /\ peer v' = peer v /\ cancel v' = cancel v /\ spawned v' = spawned v
      /\ sent (signal v') = sent (signal v) ++ [joinLiveMessage (signal v)]
      /\ mMethod (joinLiveMessage (signal v)) = "JOIN_LIVE"%string
      /\ mRole (joinLiveMessage (signal v)) = "viewer"%string
      /\ mName (joinLiveMessage (signal v)) = ID (ticket (signal v))
      /\ mRecipientClientID (joinLiveMessage (signal v)) = serial (signal v).
Proof.
  intros v. eexists. split; [reflexivity|]. cbn [peer cancel spawned signal].
  repeat split. apply sendJSON_sent.
Qed.

(** X18. An answer that the engine rejects is not fatal: [OnSDPAnswer]
    returns, the gate stays as it was, nothing is sent or cancelled, no
    waiting goroutine is lost, and the engine got exactly that one call. *)
Theorem rejected_answer_is_not_fatal :
  forall (v : Viewer) (sdp : SDPPayload) (err : string),
    snd (pcSetRemoteDescription (pc (peer v)) (SDP sdp)) = Some err ->
    exists v',
      OnSDPAnswer sdp v = Ok v'
      /\ remoteDescSet (peer v') = remoteDescSet (peer v)
      /\ calls (peer v')
         = calls (peer v) ++ [ESetRemoteDescription (SDP sdp) (Some err)]
      /\ signal v' = signal v /\ cancel v' = cancel v
      /\ spawned v' = spawned v.
Proof.
  intros v sdp err Hrej. unfold OnSDPAnswer, SetRemoteDescription.
  destruct (pcSetRemoteDescription (pc (peer v)) (SDP sdp)) as [pc1 e].
  cbn [snd] in Hrej. subst e. cbn [bind fst]. eexists.
  split; [reflexivity|]. cbn. auto.
Qed.


End ViewerMore.

Lemma rejected_answer_is_not_fatal_witness :
  exists v',
    Viewer.OnSDPAnswer (Domain.mkSDPPayload "answer" EmptyString)
      StandinMore.strictViewer = Ok v'
    /\ Webrtc.remoteDescSet (Viewer.peer v') = Webrtc.ChanOpen.
Proof.
  destruct (@rejected_answer_is_not_fatal StandinMore.strictEngine
              Standin.transport StandinMore.strictViewer
              (Domain.mkSDPPayload "answer" EmptyString)
              "empty description"%string eq_refl)
    as [v' [H [Hg _]]].
  exists v'. split; [exact H | exact Hg].
Defined.


(** ** The peer: offer, candidates, set-up *)

Section PeerMore.
Import Domain Webrtc Signal Viewer.
Context {engine : PionEngine} {transport : Transport}.


(** X22. Past the gate, [AddRemoteICECandidate] makes one call on the
    engine and returns: the engine is handed the candidate string and the
    mid it was given, and the line index as a [uint16], that is the index
    modulo 65536 (the index itself when it is in 0..65535); the connection
    is the one the engine left; an error of the engine comes back with the
    prefix "add ice candidate: ", and no error as none. *)
Theorem candidate_reaches_engine_with_uint16_index :
  forall (p : Peer) (c : ICECandidatePayload),
    remoteDescSet p = ChanClosed ->
    exists p' err reply,
      AddRemoteICECandidate p c = Returned (p', err)
      /\ calls p' = calls p ++ [EAddICECandidate (candidateInit c) reply]
      /\ (reply = None <-> err = None)
      /\ initCandidate (candidateInit c) = Candidate c
      /\ initSDPMid (candidateInit c) = SDPMid c
      /\ 0 <= initSDPMLineIndex (candidateInit c) < 65536
      /\ (0 <= SDPMLineIndex c < 65536 ->
          initSDPMLineIndex (candidateInit c) = SDPMLineIndex c)
      /\ initSDPMLineIndex (candidateInit c) = SDPMLineIndex c mod 65536
      /\ reply = snd (pcAddICECandidate (pc p) (candidateInit c))
      /\ pc p' = fst (pcAddICECandidate (pc p) (candidateInit c))
      /\ remoteDescSet p' = ChanClosed
      /\ err = match reply with
               | Some e => Some ("add ice candidate: " ++ e)%string
               | None => None
               end.
Proof.
  intros p c Hclosed. unfold AddRemoteICECandidate. rewrite Hclosed.
  destruct (pcAddICECandidate (pc p) (candidateInit c)) as [pc1 [e|]];
    eexists _, _, _; (split; [reflexivity|]); cbn [calls];
    (split; [reflexivity|]); (split; [split; congruence|]);
    (split; [reflexivity|]); (split; [reflexivity|]);
    cbn [candidateInit initSDPMLineIndex];
    (split; [apply Z.mod_pos_bound; lia|]);
    (split; [apply Z.mod_small|]);
    (split; [reflexivity|]); (split; [reflexivity|]);
    (split; [reflexivity|]); (split; reflexivity).
Qed.

End PeerMore.


Lemma candidate_reaches_engine_with_uint16_index_witness :
  exists p' err reply,
    Webrtc.AddRemoteICECandidate (Viewer.peer StandinMore.released)
      StandinMore.anotherCandidate = Webrtc.Returned (p', err)
    /\ Webrtc.calls p'
       = Webrtc.calls (Viewer.peer StandinMore.released)
         ++ [Webrtc.EAddICECandidate
               (Webrtc.candidateInit StandinMore.anotherCandidate) reply]
    /\ Webrtc.initSDPMLineIndex
         (Webrtc.candidateInit StandinMore.anotherCandidate) = 4464.
Proof.
  destruct (@candidate_reaches_engine_with_uint16_index Standin.engine
              (Viewer.peer StandinMore.released)
              StandinMore.anotherCandidate eq_refl)
    as [p' [err [reply [H1 [H2 [_ [_ [_ [_ [_ [H3 _]]]]]]]]]]].
  exists p', err, reply. split; [exact H1|]. split; [exact H2|].
  rewrite H3. reflexivity.
Defined.

Section SetupFacts.
Import Setup.

(** Where a call stands in a list of calls. *)
Lemma setup_call_split (x : setup_call) (cs pre post : list setup_call) :
  cs = pre ++ x :: post ->
  match cs with
  | [] => False
  | c :: cs' =>
      (pre = [] /\ c = x /\ cs' = post)
      \/ exists pre', pre = c :: pre' /\ cs' = pre' ++ x :: post
  end.
Proof.
  intros ->. destruct pre as [|c pre]; cbn [app]; [left; auto|].
  right. exists pre. auto.
Qed.

(** X23. [NewPeer] returns a peer exactly when the engine accepts all five
    steps, and has then made, in this order, exactly: the registration of
    H264 (payload type 121), the registration of PCMU (payload type 0), the
    NACK responder, the peer connection, the data channel named after the
    serial number. In every outcome H264 is registered first; whenever a
    peer connection is asked for, both codecs and the responder come before
    it in the calls and the data channel after it; the engine is given the
    ICE servers of the ticket, one for one and in order; at most one peer
    connection is made; and when an error is returned no peer connection
    is left open (the one made is closed again if the data channel
    fails). *)
Theorem NewPeer_leaves_no_connection_on_error :
  forall (r : replies) (iceServers : list ICEServer) (serialNumber : string),
    let calls := fst (NewPeer r iceServers serialNumber) in
    let err := snd (NewPeer r iceServers serialNumber) in
    (err = None <-> all_accepted r = true)
    /\ hd_error calls = Some (RegisterCodec "video/H264" 90000 121 true)
    /\ (length (filter is_connection calls) <= 1)%nat
    /\ (forall servers made,
          In (NewPeerConnection servers made) calls ->
          map URLs servers = map (fun s => [URL s]) iceServers
          /\ map pUsername servers = map Username iceServers
          /\ map pCredential servers = map Credential iceServers)
    /\ (err <> None -> open_connections calls = 0)
    /\ (err = None ->
        open_connections calls = 1
        /\ In (RegisterCodec "audio/PCMU" 8000 0 false) calls
        /\ In (CreateDataChannel serialNumber) calls)
    /\ (err = None ->
        calls
        = [RegisterCodec "video/H264" 90000 121 true;
           RegisterCodec "audio/PCMU" 8000 0 false;
           NewResponderInterceptor;
           NewPeerConnection
             (map (fun s => mkPionICEServer [URL s] (Username s)
                              (Credential s)) iceServers) true;
           CreateDataChannel serialNumber])
    /\ (forall pre post servers made,
          calls = pre ++ NewPeerConnection servers made :: post ->
          pre = [RegisterCodec "video/H264" 90000 121 true;
                 RegisterCodec "audio/PCMU" 8000 0 false;
                 NewResponderInterceptor]
          /\ (made = false -> post = [])
          /\ (made = true ->
              exists post',
                post = CreateDataChannel serialNumber :: post')).
Proof.
  intros r iceServers serialNumber. cbv zeta. unfold NewPeer, all_accepted.
  assert (Hservers :
            forall servers made made',
              NewPeerConnection
                (map (fun s => mkPionICEServer [URL s] (Username s)
                                 (Credential s)) iceServers) made
              = NewPeerConnection servers made' ->
              map URLs servers = map (fun s => [URL s]) iceServers
              /\ map pUsername servers = map Username iceServers
              /\ map pCredential servers = map Credential iceServers).
  { intros servers made made' H. injection H as <- _.
    rewrite !map_map. auto. }
  destruct (registerH264 r), (registerPCMU r), (newResponder r),
    (newPeerConnection r), (createDataChannel r);
    cbn [fst snd hd_error filter is_connection List.length open_connections];
    (split; [split; intros HH; (reflexivity || discriminate HH)|]);
    (split; [reflexivity|]);
    (split; [lia|]);
    (split;
     [intros servers made Hin; cbn [In] in Hin;
      repeat match type of Hin with
             | _ \/ _ => destruct Hin as [Hin|Hin]
             end; try discriminate; try contradiction;
      eapply Hservers; exact Hin|]);
    (split;
     [intros H; (reflexivity || (exfalso; apply H; reflexivity)) | ]);
    (split; [intros H; try discriminate; cbn [In]; auto 10|]);
    (split; [intros H; (reflexivity || discriminate H)|]);
    intros pre post servers made Hsplit;
    repeat (apply setup_call_split in Hsplit;
            first [ contradiction
                  | destruct Hsplit as [[-> [Heq Hpost]] | [? [-> Hsplit]]];
                    [try discriminate Heq |] ]);
    try (injection Heq as <- <-; subst post;
         split; [reflexivity|];
         split; [intros Hm; (reflexivity || discriminate Hm)
                | intros Hm; try discriminate Hm; eauto]).
Qed.

End SetupFacts.

(** ** The session with the local candidates: what is sent *)

Section SessionMore.
Import Domain Webrtc Signal Viewer.
Context {engine : PionEngine} {transport : Transport}.

Lemma forward_sent (c : option Local.ICECandidateJSON) (sc : Client) :
  exists added,
    sent (Local.forward c sc) = sent sc ++ added
    /\ map Session.frame_kind added
       = Session.expected_frames (Session.LocalCandidate c)
    /\ sessionID (Local.forward c sc) = sessionID sc.
Proof.
  unfold Local.forward. destruct c as [j|]; cbn [Local.onICECandidate].
  - cbn [Session.expected_frames].
    destruct (Local.isLoopback (Local.jCandidate j)).
    + exists []. rewrite app_nil_r. auto.
    + unfold SendICECandidate.
      match goal with
      | |- context [sendJSON sc ?m] =>
          destruct (sendJSON_keeps sc m) as [_ [_ [H3 [_ [H5 _]]]]];
          exists [m]
      end.
      rewrite H5, H3. auto.
  - exists []. rewrite app_nil_r. auto.
Qed.

Lemma session_perform_sent (v v' : Viewer) (ev : Session.event) :
  Session.perform v ev = Some v' ->
  exists added,
    sent (signal v') = sent (signal v) ++ added
    /\ map Session.frame_kind added = Session.expected_frames ev
    /\ cancel v' = (cancel v + Session.peer_out_calls [ev])%nat
    /\ sessionID (signal v') = sessionID (signal v).
Proof.
  destruct ev as [[call | i] | c]; cbn [Session.perform perform].
  - destruct call as [| | |sdp|c]; cbn [handle].
    + intros H. injection H as <-. cbn [signal cancel].
      unfold SendJoinLive.
      destruct (sendJSON_keeps (signal v) (joinLiveMessage (signal v)))
        as [_ [_ [H3 [_ [H5 _]]]]].
      exists [joinLiveMessage (signal v)]. rewrite H5, H3. cbn.
      repeat split; auto; lia.
    + unfold OnPeerIn.
      destruct (CreateOffer (peer v)) as [p' [sdp|err]]; [|discriminate].
      intros H. injection H as <-. cbn [signal cancel].
      unfold SendSDPOffer.
      destruct (sendJSON_keeps (signal v) (sdpOfferMessage (signal v) sdp))
        as [_ [_ [H3 [_ [H5 _]]]]].
      exists [sdpOfferMessage (signal v) sdp]. rewrite H5, H3. cbn.
      repeat split; auto; lia.
    + intros H. injection H as <-. exists []. cbn. rewrite app_nil_r.
      repeat split; auto; lia.
    + unfold OnSDPAnswer.
      destruct (SetRemoteDescription (peer v) sdp) as [[p' err]| | |];
        try discriminate.
      intros H. injection H as <-. exists []. cbn. rewrite app_nil_r.
      repeat split; auto; lia.
    + intros H. injection H as <-. exists []. cbn. rewrite app_nil_r.
      repeat split; auto; lia.
  - destruct (nth_error (spawned v) i) as [c|]; [|discriminate].
    destruct (AddRemoteICECandidate (peer v) c) as [|[p' err]];
      [discriminate|].
    intros H. injection H as <-. exists []. cbn. rewrite app_nil_r.
    repeat split; auto; lia.
  - intros H. injection H as <-. cbn [signal cancel].
    destruct (forward_sent c (signal v)) as [added [H1 [H2 H3]]].
    exists added. rewrite H1, H2, H3.
    destruct c as [j|]; cbn [Session.peer_out_calls]; repeat split; lia.
Qed.

Lemma session_peer_out_calls_cons (ev : Session.event)
    (evs : list Session.event) :
  Session.peer_out_calls (ev :: evs)
  = (Session.peer_out_calls [ev] + Session.peer_out_calls evs)%nat.
Proof. destruct ev as [[[| | | |]|]|]; reflexivity. Qed.

(** X19. In every run of a session after [Connect], from any state, with
    handler calls of the read loop, candidate goroutines going on and local
    candidates reported by the engine: the messages handed to [sendJSON]
    in the run are, in the order of the events, one JOIN_LIVE for each
    [OnAuthSuccess], one TRANSMIT/SDP_OFFER for each [OnPeerIn], one
    TRANSMIT/ICE_CANDIDATE for each local candidate that is neither nil nor
    loopback, and none for any other event; what was sent before the run
    stays in front of them; the cancel function was called once per
    [OnPeerOut]; and the session id is the one the client had. *)
Theorem run_accounting :
  forall (evs : list Session.event) (v v' : Viewer),
    Session.exec v evs = Some v' ->
    exists added,
      sent (signal v') = sent (signal v) ++ added
      /\ map Session.frame_kind added
         = flat_map Session.expected_frames evs
      /\ cancel v' = (cancel v + Session.peer_out_calls evs)%nat
      /\ sessionID (signal v') = sessionID (signal v).
Proof.
  intros evs. induction evs as [|ev evs IH]; intros v v' H.
  - injection H as <-. exists []. cbn. rewrite app_nil_r.
    repeat split; auto; lia.
  - cbn [Session.exec] in H.
    destruct (Session.perform v ev) as [v1|] eqn:E; [|discriminate].
    apply session_perform_sent in E.
    destruct E as [added1 [E1 [E2 [E3 E4]]]].
    destruct (IH v1 v' H) as [added [I1 [I2 [I3 I4]]]].
    exists (added1 ++ added).
    split; [rewrite I1, E1, app_assoc; reflexivity|].
    split; [rewrite map_app, E2, I2; reflexivity|].
    split; [rewrite I3, E3, (session_peer_out_calls_cons ev evs); lia|].
    rewrite I4. exact E4.
Qed.

End SessionMore.

Lemma run_accounting_witness :
  exists added,
    Signal.sent (Viewer.signal StandinMore.afterSession)
    = Signal.sent (Viewer.signal StandinMore.connected) ++ added
    /\ map Session.frame_kind added
       = [("JOIN_LIVE", EmptyString); ("TRANSMIT", "SDP_OFFER");
          ("TRANSMIT", "ICE_CANDIDATE")]%string
    /\ Viewer.cancel StandinMore.afterSession = 1%nat.
Proof.
  destruct (@run_accounting Standin.engine Standin.transport
              StandinMore.aSession StandinMore.connected
              StandinMore.afterSession eq_refl)
    as [added [H1 [H2 [H3 _]]]].
  exists added. split; [exact H1|]. split; [exact H2 | exact H3].
Defined.

(** ** The depacketizer that the track reader calls, against the one with
       sequence numbers *)

Lemma be16_zero : be16 x00 x00 = 0.
Proof. reflexivity. Qed.

(** C1. The depacketizer of internal/webrtc/depacketize.go takes no
    sequence number and keeps no expected one: a start fragment followed by
    an end fragment gives, whatever was lost between them, a unit made of
    the rebuilt header and the data of the two fragments. The depacketizer
    with sequence numbers, given the same two payloads with numbers that are
    not consecutive, gives no unit for either, as the specification asks. *)
Theorem gap_is_not_noticed_without_sequence_numbers :
  forall (d : Unsequenced.H264Depacketizer) (d' : H264Depacketizer)
         (s s' : Z) (f0 fl : fragment),
    isFirst f0 = true ->
    isFinal fl = true ->
    s' <> uint16_succ s ->
    Track.feed d [bytes f0; bytes fl]
    = Ok (Unsequenced.mkDepacketizer [],
          [[]; [nalHeader (indicator f0) (header f0)
                :: data f0 ++ data fl]])
    /\ exists d'',
         feed d' [(s, bytes f0); (s', bytes fl)] = Ok (d'', [[]; []])
         /\ fuaBuf d'' = [] /\ fuaStarted d'' = false.
Proof.
  intros d d' s s' f0 fl Hf Hl Hgap. split.
  - assert (Hc : isChain [f0; fl] = true).
    { cbn [isChain continues]. rewrite Hf, Hl. reflexivity. }
    rewrite (track_feed_chain d [f0; fl] Hc
             : Track.feed d [bytes f0; bytes fl] = _).
    cbn [List.length Nat.sub repeat app reassembled map concat].
    rewrite app_nil_r. reflexivity.
  - apply isFirst_inv in Hf. destruct Hf as [Ht [Hs He]].
    apply isFinal_inv in Hl. destruct Hl as [Ht' [Hs' He']].
    cbn [feed]. rewrite Depacketize_fragment by exact Ht.
    rewrite depacketizeFUA_fragment, Hs, He. cbn [bind fst snd].
    rewrite Depacketize_fragment by exact Ht'.
    rewrite depacketizeFUA_fragment, Hs', He'.
    cbn [fuaStarted expectedSeq negb].
    apply Z.eqb_neq in Hgap. rewrite Hgap. cbn [negb bind fst snd].
    eexists. split; [reflexivity|]. split; reflexivity.
Qed.

Lemma gap_is_not_noticed_without_sequence_numbers_witness :
  Track.feed Unsequenced.NewH264Depacketizer
    [bytes (mkFragment x7c x85 [x01; x02]);
     bytes (mkFragment x7c x45 [x05; x06])]
  = Ok (Unsequenced.mkDepacketizer [],
        [[]; [[x65; x01; x02; x05; x06]]])
  /\ exists d'',
       feed NewH264Depacketizer
         [(100, bytes (mkFragment x7c x85 [x01; x02]));
          (102, bytes (mkFragment x7c x45 [x05; x06]))]
       = Ok (d'', [[]; []])
       /\ fuaBuf d'' = [] /\ fuaStarted d'' = false.
Proof.
  apply (@gap_is_not_noticed_without_sequence_numbers
           Unsequenced.NewH264Depacketizer NewH264Depacketizer 100 102
           (mkFragment x7c x85 [x01; x02]) (mkFragment x7c x45 [x05; x06]));
    [reflexivity | reflexivity | cbn; lia].
Defined.

(** C3. The depacketizer of internal/webrtc/depacketize.go has no started
    flag: an end fragment that no start fragment preceded is given out as a
    unit, the bare data of the fragment behind whatever the buffer held.
    The depacketizer with sequence numbers, when idle, gives no unit for
    the same payload and stays as it was, as the specification asks. *)
Theorem orphan_end_is_emitted_without_started_flag :
  forall (d : Unsequenced.H264Depacketizer) (d' : H264Depacketizer) (s : Z)
         (fl : fragment),
    isFinal fl = true ->
    fuaStarted d' = false ->
    Unsequenced.Depacketize d (bytes fl)
    = Ok (Unsequenced.mkDepacketizer [],
          [Unsequenced.fuaBuf d ++ data fl])
    /\ Depacketize d' s (bytes fl) = Ok (d', []).
Proof.
  intros d d' s fl Hl Hidle.
  apply isFinal_inv in Hl. destruct Hl as [Ht [Hs He]]. split.
  - rewrite unsequenced_Depacketize_fragment by exact Ht.
    rewrite Hs, He. reflexivity.
  - rewrite Depacketize_fragment by exact Ht.
    rewrite depacketizeFUA_fragment, Hs, Hidle. reflexivity.
Qed.

Lemma orphan_end_is_emitted_without_started_flag_witness :
  Unsequenced.Depacketize Unsequenced.NewH264Depacketizer
    (bytes (mkFragment x7c x45 [x03; x04]))
  = Ok (Unsequenced.mkDepacketizer [], [[x03; x04]])
  /\ Depacketize NewH264Depacketizer 101
       (bytes (mkFragment x7c x45 [x03; x04]))
     = Ok (NewH264Depacketizer, []).
Proof.
  apply (@orphan_end_is_emitted_without_started_flag
           Unsequenced.NewH264Depacketizer NewH264Depacketizer 101
           (mkFragment x7c x45 [x03; x04])); reflexivity.
Defined.

(** C4. The STAP-A loop of internal/webrtc/depacketize.go has no test for a
    zero size: on a packet whose first declared size is zero it gives an
    empty unit and reads on. The depacketizer with sequence numbers stops
    there and gives no unit, as the specification asks. *)
Theorem zero_size_is_read_on_without_the_test :
  forall (d : Unsequenced.H264Depacketizer) (d' : H264Depacketizer) (s : Z)
         (b0 : byte) (rest : list byte),
    nalType b0 = 24 ->
    (exists more,
       Unsequenced.Depacketize d (b0 :: x00 :: x00 :: rest)
       = Ok (d, [] :: more))
    /\ Depacketize d' s (b0 :: x00 :: x00 :: rest) = Ok (d', []).
Proof.
  intros d d' s b0 rest Ht. split.
  - unfold Unsequenced.Depacketize. rewrite len_lt_1_cons, index_0.
    cbn [bind]. fold (nalType b0). rewrite Ht. cbn [andb Z.leb Z.eqb].
    change (exists more,
              Unsequenced.depacketizeSTAPA d (b0 :: x00 :: x00 :: rest)
              = Ok (d, [] :: more)).
    unfold Unsequenced.depacketizeSTAPA.
    change (length (b0 :: x00 :: x00 :: rest))
      with (S (S (S (length rest)))).
    change (b0 :: x00 :: x00 :: rest) with ([b0] ++ x00 :: x00 :: rest).
    change 1 with (len [b0]).
    rewrite unsequenced_stapaLoop_turn. cbv zeta. rewrite be16_zero.
    pose proof (len_nonneg rest) as Hlen.
    replace (0 >? len rest) with false
      by (symmetry; rewrite Z.gtb_ltb; apply Z.ltb_ge; lia).
    cbn [Z.to_nat firstn skipn app].
    destruct (@stapa_loops_side_by_side (S (S (length rest)))
                (([b0] ++ [x00; x00]) ++ []) rest [] [[]])
      as [us [tail [_ [H _]]]]; [lia|].
    cbn [app] in H. cbn [app]. rewrite H. cbn [bind]. eauto.
  - destruct (depacketizeSTAPA_units d' b0 (x00 :: x00 :: rest))
      as [us [Hrun Hus]].
    rewrite Depacketize_cons, Ht. cbn [andb Z.leb Z.eqb].
    change (depacketizeSTAPA d' (b0 :: x00 :: x00 :: rest) = Ok (d', [])).
    rewrite Hrun. f_equal. f_equal.
    apply (stapa_units_functional Hus).
    apply stapa_zero. exact be16_zero.
Qed.

Lemma zero_size_is_read_on_without_the_test_witness :
  (exists more,
     Unsequenced.Depacketize Unsequenced.NewH264Depacketizer
       (x18 :: x00 :: x00 :: [x00; x01; x68])
     = Ok (Unsequenced.NewH264Depacketizer, [] :: more))
  /\ Depacketize NewH264Depacketizer 100
       (x18 :: x00 :: x00 :: [x00; x01; x68])
     = Ok (NewH264Depacketizer, []).
Proof.
  apply zero_size_is_read_on_without_the_test. reflexivity.
Defined.
